(** * ciwcontrol: the parameter builder of [manager.py]

    A shallow embedding of [src/manager.py] and the properties of its
    parsers, aggregators and transition-matrix construction.

    Modelling conventions.
    - Python [float] is IEEE binary64: the primitive type [float] with
      [PrimFloat.add] and [PrimFloat.ltb].
    - A Python [dict] keeps its keys in insertion order; it is an
      association list read at the first match, where assignment to a
      present key replaces the value in place and assignment to a new key
      appends.  The order decides which exception is met first when a loop
      over [keys()] can raise.
    - An exception is a value of [error]; code that can raise returns
      [result].
    - Integers are [Z]; lengths of lists are [nat]. *)

From Stdlib Require Import ZArith Lia Floats Ascii.
From stdpp Require Import base list strings pretty.

Set Warnings "-inexact-float".

(** ** Exceptions *)

Inductive error : Type :=
  | UnsupportedDistribution (dist : string)
  | ArgumentCount (dist : string) (expected given : nat)
  | FloatValueError (token : string)
  | ProbabilityOverflow (node : string)
  | DuplicateStationName (node : string)
  | KeyError (key : string).

Inductive result (A : Type) : Type :=
  | Ok (a : A)
  | Raise (e : error).

Arguments Ok {A} a.
Arguments Raise {A} e.

Definition bind {A B : Type} (m : result A) (k : A → result B) : result B :=
  match m with
  | Ok a => k a
  | Raise e => Raise e
  end.

Notation "'let!' x ':=' m 'in' k" := (bind m (fun x => k))
  (at level 10, x pattern, m at level 100, k at level 200).

Definition is_ok {A : Type} (m : result A) : bool :=
  match m with Ok _ => true | Raise _ => false end.

(** [[f(x) for x in l]], stopping at the first element on which [f] raises. *)
Fixpoint mapM_result {A B : Type} (f : A → result B) (l : list A)
  : result (list B) :=
  match l with
  | [] => Ok []
  | x :: l' => let! y := f x in let! ys := mapM_result f l' in Ok (y :: ys)
  end.

(** A [for] loop whose body can raise, threading the loop state. *)
Fixpoint foldM_result {A S : Type} (body : S → A → result S) (s : S)
  (l : list A) : result S :=
  match l with
  | [] => Ok s
  | x :: l' => let! s' := body s x in foldM_result body s' l'
  end.

(** ** Python dictionaries *)

Section dict.
Context {K : Type} `{EqDecision K} {V : Type}.

Definition dict : Type := list (K * V).

(** [d[k]], [None] standing for the absent key. *)
Fixpoint dict_get (d : dict) (k : K) : option V :=
  match d with
  | [] => None
  | (k', v) :: d' => if decide (k = k') then Some v else dict_get d' k
  end.

(** [k in d.keys()] *)
Definition dict_mem (k : K) (d : dict) : bool :=
  match dict_get d k with Some _ => true | None => false end.

(** [d[k] = v] *)
Fixpoint dict_set (d : dict) (k : K) (v : V) : dict :=
  match d with
  | [] => [(k, v)]
  | (k', v') :: d' =>
      if decide (k = k') then (k, v) :: d' else (k', v') :: dict_set d' k v
  end.

(** [d.keys()] *)
Definition dict_keys (d : dict) : list K := map fst d.

(** [dict(zip(ks, vs))] *)
Definition dict_zip (ks : list K) (vs : list V) : dict :=
  fold_left (λ d kv, dict_set d kv.1 kv.2) (zip ks vs) [].

End dict.

Arguments dict K V : clear implicits.

(** ** Distribution descriptors *)

(** The registry: distribution name and number of arguments. *)
Definition distributions : dict string nat :=
  [ ("Exponential", 1); ("Uniform", 2); ("Deterministic", 1);
    ("Triangular", 3); ("Gamma", 2); ("Lognormal", 2); ("Weibull", 1);
    ("NoArrivals", 0) ]%nat.

(** What [parse_distribution] returns: the string ['NoArrivals'] or the list
    [[dist, *args]]. *)
Inductive descriptor : Type :=
  | NoArrivals
  | Dist (dist : string) (args : list float).

(** [s.split(' ')]: the segments between single spaces; never empty, and
    two adjacent spaces enclose an empty segment. *)
Fixpoint split_space (s : string) : list string :=
  match s with
  | EmptyString => [EmptyString]
  | String c s' =>
      if Ascii.eqb c " "%char then EmptyString :: split_space s'
      else match split_space s' with
           | seg :: segs => String c seg :: segs
           | [] => [String c EmptyString]
           end
  end.

(** ** Input records

    The decoded network description: every key the code reads without a
    guard is a field; the keys it guards (['connections']) or reads under
    [try] (['dist']) are optional, and so is ['service'], which it reads
    unguarded and which raises [KeyError] when absent.  A routing
    probability is a [float], a class identifier and a server count are
    integers. *)

Record connection : Type := {
  conn_target : string;
  conn_prob : float
}.

Record customer : Type := {
  cust_class : Z;
  cust_dist : option string;
  cust_service : option string;
  cust_connections : option (list connection)
}.

(** A queue capacity: an integer or the marker of an unbounded queue; the
    code passes it through unread. *)
Inductive capacity_value : Type :=
  | CapInt (n : Z)
  | CapInf.

Record station : Type := {
  st_name : string;
  st_capacity : capacity_value;
  st_servers : Z;
  st_customers : list customer
}.

(** An edge record [(source name, target name, probability)]. *)
Definition edge : Type := string * string * float.

(** ** Connection parser *)

(** The state of the loop of [parse_connections] after the whole list:
    [(total_prob, connect)].  [total_prob] starts at the integer [0], which
    the first addition converts to [0.0]. *)
Definition connections_loop (connections : list connection)
  (current_name : string) : float * list edge :=
  fold_left
    (λ '(total_prob, connect) c,
       (PrimFloat.add total_prob (conn_prob c),
        connect ++ [(current_name, conn_target c, conn_prob c)]))
    connections (0%float, []).

Definition parse_connections (connections : list connection)
  (current_name : string) : result (list edge) :=
  let '(total_prob, connect) := connections_loop connections current_name in
  if PrimFloat.ltb 1%float total_prob
  then Raise (ProbabilityOverflow current_name)
  else Ok connect.

(** ['Class %i' % n] *)
Definition class_key (n : Z) : string := "Class " +:+ pretty n.

(** ** Distribution aggregator *)

(** [d[k].append(x)]; a missing key would raise [KeyError], which cannot
    happen where the code uses it (the key was tested or set just before). *)
Definition dict_append {V : Type} (d : dict string (list V)) (k : string)
  (x : V) : dict string (list V) :=
  match dict_get d k with
  | Some l => dict_set d k (l ++ [x])
  | None => d
  end.

(** The body of the first loop of [update_distributions]. *)
Definition add_distribution (current_node : Z)
  (existing : dict string (list descriptor)) (item : string * descriptor)
  : dict string (list descriptor) :=
  let '(new_key, new_value) := item in
  let existing :=
    if negb (dict_mem new_key existing)
    then dict_set existing new_key
           (replicate (Z.to_nat (current_node - 1)) NoArrivals)
    else existing in
  dict_append existing new_key new_value.

(** The body of the second loop: the list of one key is padded when its
    length differs from the current node. *)
Definition pad_distribution (current_node : Z) (l : list descriptor)
  : list descriptor :=
  if bool_decide (Z.of_nat (length l) ≠ current_node)
  then l ++ [NoArrivals] else l.

Definition update_distributions (existing : dict string (list descriptor))
  (new : dict string descriptor) (current_node : Z)
  : dict string (list descriptor) :=
  let existing := fold_left (add_distribution current_node) new existing in
  map (λ '(existing_key, l), (existing_key, pad_distribution current_node l))
      existing.

(** ** Connection aggregator *)

Definition add_connections (existing : dict string (list edge))
  (item : string * list edge) : dict string (list edge) :=
  let '(new_key, new_value) := item in
  match dict_get existing new_key with
  | None => dict_set existing new_key new_value
  | Some l => dict_set existing new_key (l ++ new_value)
  end.

Definition update_connections (existing new : dict string (list edge))
  : dict string (list edge) :=
  fold_left add_connections new existing.

(** ** The directed graph of networkx

    [nx.DiGraph] as the code uses it: the nodes in the order in which they
    were first mentioned, and one data record per ordered pair of nodes,
    whose ['weight'] a later edge between the same pair replaces.
    [to_numpy_matrix] with its default arguments lists the nodes of the
    graph in that order, writes each edge's weight at its pair of positions
    and [0.0] where there is no edge or the weight is a NaN. *)

Record DiGraph : Type := {
  dg_nodes : list Z;
  dg_adj : dict (Z * Z) float
}.

Definition empty_DiGraph : DiGraph := {| dg_nodes := []; dg_adj := [] |}.

Definition add_node (nodes : list Z) (u : Z) : list Z :=
  if bool_decide (u ∈ nodes) then nodes else nodes ++ [u].

Definition add_edge (g : DiGraph) (e : Z * Z * float) : DiGraph :=
  let '(u, v, w) := e in
  {| dg_nodes := add_node (add_node (dg_nodes g) u) v;
     dg_adj := dict_set (dg_adj g) (u, v) w |}.

Definition add_edges_from (g : DiGraph) (es : list (Z * Z * float))
  : DiGraph :=
  fold_left add_edge es g.

Definition matrix : Type := list (list float).

Definition edge_weight (g : DiGraph) (u v : Z) : float :=
  match dict_get (dg_adj g) (u, v) with
  | Some w => if PrimFloat.is_nan w then 0%float else w
  | None => 0%float
  end.

Definition to_numpy_matrix (g : DiGraph) : matrix :=
  map (λ u, map (λ v, edge_weight g u v) (dg_nodes g)) (dg_nodes g).

(** ** Transition matrix of one class *)

(** [names_to_nodes[name]] *)
Definition node_of (names_to_nodes : dict string Z) (name : string)
  : result Z :=
  match dict_get names_to_nodes name with
  | Some n => Ok n
  | None => Raise (KeyError name)
  end.

Definition number_edge (names_to_nodes : dict string Z) (t : edge)
  : result (Z * Z * float) :=
  let '(source, target, weight) := t in
  let! u := node_of names_to_nodes source in
  let! v := node_of names_to_nodes target in
  Ok (u, v, weight).

(** The body of the loop over [connections.keys()] in [build_params]. *)
Definition transition_matrix (names_to_nodes : dict string Z)
  (num_nodes : nat) (c : list edge) : result matrix :=
  if bool_decide (0 < length c) then
    let! c := mapM_result (number_edge names_to_nodes) c in
    Ok (to_numpy_matrix (add_edges_from empty_DiGraph c))
  else
    Ok (replicate num_nodes (replicate num_nodes 0%float)).

(** ** Output records *)

(** The three mappings returned by [parse_customers]. *)
Record customer_dists : Type := {
  cd_arrival : dict string descriptor;
  cd_service : dict string descriptor;
  cd_connections : dict string (list edge)
}.

(** The dictionary returned by [parse_station]. *)
Record node : Type := {
  node_name : string;
  node_capacity : capacity_value;
  node_arrivals : dict string descriptor;
  node_service : dict string descriptor;
  node_servers : Z;
  node_connections : dict string (list edge)
}.

(** The parameter dictionary returned by [build_params]. *)
Record params : Type := {
  Arrival_distributions : dict string (list descriptor);
  Number_of_nodes : nat;
  Number_of_servers : list Z;
  Queue_capacities : list capacity_value;
  Service_distributions : dict string (list descriptor);
  Transition_matrices : dict string matrix
}.

(** The variables of the loop over the stations in [build_params]. *)
Record build_state : Type := {
  bs_current_node : Z;
  bs_names_to_nodes : dict string Z;
  bs_servers : list Z;
  bs_capacities : list capacity_value;
  bs_arrivals : dict string (list descriptor);
  bs_service : dict string (list descriptor);
  bs_connections : dict string (list edge)
}.

Definition initial_state : build_state :=
  {| bs_current_node := 0; bs_names_to_nodes := []; bs_servers := [];
     bs_capacities := []; bs_arrivals := []; bs_service := [];
     bs_connections := [] |}.

Section Manager.

(** Python's builtin [float] on a string: [None] where it raises
    [ValueError]. *)
Variable py_float : string → option float.

Definition float_arg (a : string) : result float :=
  match py_float a with
  | Some x => Ok x
  | None => Raise (FloatValueError a)
  end.

Definition parse_distribution (s : string) : result descriptor :=
  let segments := split_space s in
  let dist := hd EmptyString segments in
  let args := tl segments in
  match dict_get distributions dist with
  | None => Raise (UnsupportedDistribution dist)
  | Some n =>
      if bool_decide (length args ≠ n)
      then Raise (ArgumentCount dist n (length args))
      else
        let! args := mapM_result float_arg args in
        if bool_decide (dist = "NoArrivals") then Ok NoArrivals
        else Ok (Dist dist args)
  end.

(** ** Station parser *)

(** The four lists that the loop of [parse_customers] appends to. *)
Definition customer_lists : Type :=
  list string * list descriptor * list descriptor * list (list edge).

(** The arrival specification, read and parsed under [try]: a missing key
    and a failed parse both end in the [except] branch. *)
Definition parse_arrival (customer : customer) : descriptor :=
  match cust_dist customer with
  | None => NoArrivals
  | Some s =>
      match parse_distribution s with
      | Ok d => d
      | Raise _ => NoArrivals
      end
  end.

(** The service specification, read and parsed with no handler. *)
Definition parse_service (customer : customer) : result descriptor :=
  match cust_service customer with
  | None => Raise (KeyError "service")
  | Some s => parse_distribution s
  end.

Definition parse_routing (current_name : string) (customer : customer)
  : result (list edge) :=
  match cust_connections customer with
  | Some connections =>
      let! connect := parse_connections connections current_name in
      Ok ([] ++ connect)
  | None => Ok []
  end.

(** The body of the loop of [parse_customers]. *)
Definition parse_customer (current_name : string) (acc : customer_lists)
  (customer : customer) : result customer_lists :=
  let '(keys, dists, serv_dists, connections) := acc in
  let keys := keys ++ [class_key (cust_class customer)] in
  let dists := dists ++ [parse_arrival customer] in
  let! serv := parse_service customer in
  let serv_dists := serv_dists ++ [serv] in
  let! conns := parse_routing current_name customer in
  Ok (keys, dists, serv_dists, connections ++ [conns]).

Definition parse_customers (customers : list customer)
  (current_name : string) : result customer_dists :=
  let! (keys, dists, serv_dists, connections) :=
    foldM_result (parse_customer current_name) ([], [], [], []) customers in
  Ok {| cd_arrival := dict_zip keys dists;
        cd_service := dict_zip keys serv_dists;
        cd_connections := dict_zip keys connections |}.

Definition parse_station (station : station) : result node :=
  let! dists := parse_customers (st_customers station) (st_name station) in
  Ok {| node_name := st_name station;
        node_capacity := st_capacity station;
        node_arrivals := cd_arrival dists;
        node_service := cd_service dists;
        node_servers := st_servers station;
        node_connections := cd_connections dists |}.

(** ** Parameter assembler *)

(** The body of the loop over the stations. *)
Definition build_step (s : build_state) (station : station)
  : result build_state :=
  let current_node := (bs_current_node s + 1)%Z in
  let! node := parse_station station in
  if dict_mem (node_name node) (bs_names_to_nodes s)
  then Raise (DuplicateStationName (node_name node))
  else
    Ok {| bs_current_node := current_node;
          bs_names_to_nodes :=
            dict_set (bs_names_to_nodes s) (node_name node) current_node;
          bs_servers := bs_servers s ++ [node_servers node];
          bs_capacities := bs_capacities s ++ [node_capacity node];
          bs_arrivals :=
            update_distributions (bs_arrivals s) (node_arrivals node)
              current_node;
          bs_service :=
            update_distributions (bs_service s) (node_service node)
              current_node;
          bs_connections :=
            update_connections (bs_connections s) (node_connections node) |}.

(** The loop that builds [matrices], one key of [connections] at a time. *)
Definition build_matrices (names_to_nodes : dict string Z) (num_nodes : nat)
  (connections : dict string (list edge)) : result (dict string matrix) :=
  foldM_result
    (λ matrices '(key, c),
       let! m := transition_matrix names_to_nodes num_nodes c in
       Ok (dict_set matrices key m))
    [] connections.

Definition build_params (stations : list station) : result params :=
  let num_nodes := length stations in
  let! s := foldM_result build_step initial_state stations in
  let! matrices :=
    build_matrices (bs_names_to_nodes s) num_nodes (bs_connections s) in
  Ok {| Arrival_distributions := bs_arrivals s;
        Number_of_nodes := length stations;
        Number_of_servers := bs_servers s;
        Queue_capacities := bs_capacities s;
        Service_distributions := bs_service s;
        Transition_matrices := matrices |}.

End Manager.

(** ** A reader of decimal literals

    An instance of [py_float] for the examples: it reads [digits] and
    [digits.digits], the literals on which dividing the integer of the
    digits by a power of ten is correctly rounded (fewer than sixteen
    digits), and raises on every other token.  Python's [float] reads more;
    the theorems hold for any reader. *)

Definition digit_value (c : ascii) : option Z :=
  let n := Z.of_N (N_of_ascii c) in
  if bool_decide (48 ≤ n ≤ 57)%Z then Some (n - 48)%Z else None.

(** The digits of [s] read from the left into [acc]; the count of digits. *)
Fixpoint read_digits (s : string) (acc : Z) (count : nat)
  : option (Z * nat) :=
  match s with
  | EmptyString => Some (acc, count)
  | String c s' =>
      match digit_value c with
      | Some d => read_digits s' (10 * acc + d)%Z (S count)
      | None => None
      end
  end.

Fixpoint split_point (s : string) : string * option string :=
  match s with
  | EmptyString => (EmptyString, None)
  | String c s' =>
      if Ascii.eqb c "."%char then (EmptyString, Some s')
      else let '(int_part, frac) := split_point s' in
           (String c int_part, frac)
  end.

Definition float_of_Z (n : Z) : float := PrimFloat.of_uint63 (Uint63.of_Z n).

Definition decimal_float (token : string) : option float :=
  let '(int_part, frac) := split_point token in
  let frac := default EmptyString frac in
  match read_digits (int_part +:+ frac) 0 0 with
  | Some (n, count) =>
      if bool_decide (0 < count < 16)%nat
      then Some (PrimFloat.div (float_of_Z n)
                   (float_of_Z (10 ^ Z.of_nat (String.length frac))))
      else None
  | None => None
  end.

(** ** Example networks *)

Definition customer_of (class : Z) (dist : option string) (service : string)
  (connections : option (list connection)) : customer :=
  {| cust_class := class; cust_dist := dist; cust_service := Some service;
     cust_connections := connections |}.

Definition route (target : string) (prob : float) : connection :=
  {| conn_target := target; conn_prob := prob |}.

Definition station_of (name : string) (capacity servers : Z)
  (customers : list customer) : station :=
  {| st_name := name; st_capacity := CapInt capacity; st_servers := servers;
     st_customers := customers |}.

(** The two stations of the scenario of the specification. *)
Definition station_A : station :=
  station_of "A" 10 1
    [customer_of 1 (Some "Exponential 2.0") "Exponential 5.0"
       (Some [route "B" 0.8])].

Definition station_B : station :=
  station_of "B" 5 2 [customer_of 1 None "Deterministic 1.0" None].

(** A third station, which class 1 never visits. *)
Definition station_C : station :=
  station_of "C" 5 2 [customer_of 2 None "Deterministic 1.0" None].

(** Station A with two routing targets that name the same station. *)
Definition station_A_twice : station :=
  station_of "A" 10 1
    [customer_of 1 (Some "Exponential 2.0") "Exponential 5.0"
       (Some [route "B" 0.3; route "B" 0.2])].

(** Station A with a negative probability and one above one, summing to
    [0.75]. *)
Definition station_A_signed : station :=
  station_of "A" 10 1
    [customer_of 1 (Some "Exponential 2.0") "Exponential 5.0"
       (Some [route "B" (-0.5); route "A" 1.25])].

(** A second station named A whose only entry has no service
    specification. *)
Definition station_A_unserved : station :=
  {| st_name := "A"; st_capacity := CapInt 3; st_servers := 1;
     st_customers :=
       [ {| cust_class := 1; cust_dist := None; cust_service := None;
            cust_connections := None |} ] |}.

(** Station A routing class 1 twice to B, first with a negative
    probability. *)
Definition station_A_replaced : station :=
  station_of "A" 10 1
    [customer_of 1 (Some "Exponential 2.0") "Exponential 5.0"
       (Some [route "B" (-0.5); route "B" 0.25])].

(** Station A whose arrival specification names no distribution. *)
Definition station_A_bad_arrival : station :=
  station_of "A" 10 1
    [customer_of 1 (Some "Poisson 3") "Exponential 5.0"
       (Some [route "B" 0.8])].

(** ** Quantities named by the properties *)

(** The sum of the routing probabilities of a list, added from the left as
    the loop adds them. *)
Definition total_prob (connections : list connection) : float :=
  fold_left (λ total c, PrimFloat.add total (conn_prob c)) connections
    0%float.

(** The edge record of one routing target. *)
Definition edge_of (current_name : string) (c : connection) : edge :=
  (current_name, conn_target c, conn_prob c).

(** The list that [update_distributions] leaves for a key that the running
    mapping and the new station both may or may not hold ([None]: the key
    is in neither). *)
Definition merged_sequence (current_node : Z)
  (old : option (list descriptor)) (new : option descriptor)
  : option (list descriptor) :=
  match old, new with
  | Some l, Some v => Some (l ++ [v])
  | None, Some v =>
      Some (replicate (Z.to_nat (current_node - 1)) NoArrivals ++ [v])
  | Some l, None => Some (l ++ [NoArrivals])
  | None, None => None
  end.

(** The entries of a class, station by station, in per-station mappings;
    [NoArrivals] where a station has no entry for the class. *)
Definition column (ds : list (dict string descriptor)) (key : string)
  : list descriptor :=
  map (λ d, default NoArrivals (dict_get d key)) ds.

(** Whether some of the per-station mappings has the class. *)
Definition seen (ds : list (dict string descriptor)) (key : string) : bool :=
  existsb (dict_mem key) ds.

(** The entry of a position of a matrix. *)
Definition matrix_entry (m : matrix) (i j : nat) : option float :=
  m !! i ≫= (λ row, row !! j).

(** The class identifiers of a station's customer entries. *)
Definition classes_of (station : station) : list Z :=
  map cust_class (st_customers station).

(** The sequence of a class after the per-station mappings [ds] were folded
    in: absent while no station has the class, its column afterwards. *)
Definition aggregated (ds : list (dict string descriptor)) (key : string)
  : option (list descriptor) :=
  if seen ds key then Some (column ds key) else None.

(** The state of the loop of [build_params] after the stations whose parsed
    nodes are [done]. *)
Definition build_inv (done : list node) (s : build_state) : Prop :=
  bs_current_node s = Z.of_nat (length done)
  ∧ (∀ name, dict_mem name (bs_names_to_nodes s) = true
             ↔ name ∈ map node_name done)
  ∧ (∀ key, dict_get (bs_arrivals s) key
            = aggregated (map node_arrivals done) key)
  ∧ (∀ key, dict_get (bs_service s) key
            = aggregated (map node_service done) key).

(** An entry of a station whose service specification and routing list
    both parse. *)
Definition entry_ok (py_float : string → option float) (current_name : string)
  (c : customer) : bool :=
  is_ok (parse_service py_float c) && is_ok (parse_routing current_name c).

(** [' '.join(segments)] *)
Fixpoint join_space (segments : list string) : string :=
  match segments with
  | [] => EmptyString
  | [seg] => seg
  | seg :: segments' => seg +:+ String " "%char (join_space segments')
  end.

(** Whether a string holds a space. *)
Fixpoint has_space (s : string) : bool :=
  match s with
  | EmptyString => false
  | String c s' => Ascii.eqb c " "%char || has_space s'
  end.

(** The keys of [dict(zip(ks, vs))]: those of [ks], each at the place of
    its first occurrence. *)
Definition first_occurrences {K : Type} `{EqDecision K} (ks : list K)
  : list K :=
  fold_left (λ acc k, if bool_decide (k ∈ acc) then acc else acc ++ [k])
    ks [].

(** The routing targets of an entry, none when it has no ['connections']. *)
Definition routes_of (c : customer) : list connection :=
  default [] (cust_connections c).

(** [c] is the last entry of its class among [customers]. *)
Definition last_of_class (customers : list customer) (c : customer) : Prop :=
  ∃ pre post,
    customers = pre ++ c :: post ∧ cust_class c ∉ map cust_class post.

(** The list that [update_connections] leaves for a key, from what the
    running mapping and the new station hold for it. *)
Definition merged_edges (old new : option (list edge))
  : option (list edge) :=
  match old, new with
  | Some l, Some es => Some (l ++ es)
  | None, Some es => Some es
  | Some l, None => Some l
  | None, None => None
  end.

(** The edges of a class, station after station, in per-station mappings. *)
Definition edge_column (ds : list (dict string (list edge))) (key : string)
  : list (list edge) :=
  map (λ d, default [] (dict_get d key)) ds.

Definition seen_edges (ds : list (dict string (list edge))) (key : string)
  : bool :=
  existsb (dict_mem key) ds.

(** The edge list of a class after the per-station mappings [ds] were
    merged: absent while no station has the class, afterwards the edges of
    the stations in their order. *)
Definition aggregated_edges (ds : list (dict string (list edge)))
  (key : string) : option (list edge) :=
  if seen_edges ds key then Some (concat (edge_column ds key)) else None.

(** What the loop of [build_params] holds, beside the sequences, after the
    stations whose parsed nodes are [done]. *)
Definition build_inv_more (done : list node) (s : build_state) : Prop :=
  NoDup (map node_name done)
  ∧ (∀ i nd, done !! i = Some nd →
             dict_get (bs_names_to_nodes s) (node_name nd)
             = Some (Z.of_nat i + 1)%Z)
  ∧ bs_servers s = map node_servers done
  ∧ bs_capacities s = map node_capacity done
  ∧ NoDup (dict_keys (bs_connections s))
  ∧ (∀ key, dict_get (bs_connections s) key
            = aggregated_edges (map node_connections done) key).

(** An edge both of whose stations have a number. *)
Definition edge_known (names_to_nodes : dict string Z) (e : edge) : bool :=
  dict_mem e.1.1 names_to_nodes && dict_mem e.1.2 names_to_nodes.

(** [key] is the key of a class that some station has an entry for. *)
Definition class_defined (stations : list station) (key : string) : Prop :=
  ∃ st n, st ∈ stations ∧ n ∈ classes_of st ∧ key = class_key n.

(** Every routing target kept for a station names a station of the
    network: the targets of the entries that are the last of their class. *)
Definition targets_defined (stations : list station) : Prop :=
  ∀ st c conn,
    st ∈ stations → last_of_class (st_customers st) c →
    conn ∈ routes_of c → conn_target conn ∈ map st_name stations.

(** Every entry of every station has a service specification and a
    routing list that parse. *)
Definition entries_ok (py_float : string → option float)
  (stations : list station) : Prop :=
  ∀ st c, st ∈ stations → c ∈ st_customers st →
          entry_ok py_float (st_name st) c = true.

(** What in the stations can make [build_params] raise [e]: a service
    specification that does not parse, a missing service specification, a
    routing list that sums above 1.0, a name used by two stations, or a
    kept routing target that names no station. *)
Definition error_cause (py_float : string → option float)
  (stations : list station) (e : error) : Prop :=
  (∃ st c spec,
     st ∈ stations ∧ c ∈ st_customers st ∧ cust_service c = Some spec
     ∧ parse_distribution py_float spec = Raise e)
  ∨ (∃ st c,
       st ∈ stations ∧ c ∈ st_customers st ∧ cust_service c = None
       ∧ e = KeyError "service")
  ∨ (∃ st c,
       st ∈ stations ∧ c ∈ st_customers st
       ∧ PrimFloat.ltb 1%float (total_prob (routes_of c)) = true
       ∧ e = ProbabilityOverflow (st_name st))
  ∨ (∃ i j st st',
       i < j ∧ stations !! i = Some st ∧ stations !! j = Some st'
       ∧ st_name st = st_name st'
       ∧ e = DuplicateStationName (st_name st'))
  ∨ (∃ st c conn,
       st ∈ stations ∧ last_of_class (st_customers st) c
       ∧ conn ∈ routes_of c
       ∧ (conn_target conn ∉ map st_name stations)
       ∧ e = KeyError (conn_target conn)).

(** The arrival specification of an entry is absent or does not parse. *)
Definition arrival_fails (py_float : string → option float) (c : customer)
  : Prop :=
  cust_dist c = None
  ∨ ∃ s e, cust_dist c = Some s ∧ parse_distribution py_float s = Raise e.

(** * Properties *)

(** ** The result monad *)

Lemma bind_Ok {A B : Type} (m : result A) (k : A → result B) (b : B) :
  bind m k = Ok b → ∃ a, m = Ok a ∧ k a = Ok b.
Proof. destruct m as [a|e]; simpl; [eauto | discriminate]. Qed.

Lemma bind_Raise {A B : Type} (m : result A) (k : A → result B) (e : error) :
  m = Raise e → bind m k = Raise e.
Proof. intros ->. reflexivity. Qed.

Lemma foldM_result_app {A S : Type} (body : S → A → result S) (s : S)
  (l1 l2 : list A) :
  foldM_result body s (l1 ++ l2)
  = bind (foldM_result body s l1) (λ s', foldM_result body s' l2).
Proof.
  revert s. induction l1 as [|x l1 IH]; intros s; simpl; [reflexivity|].
  destruct (body s x) as [s'|e]; simpl; [apply IH | reflexivity].
Qed.

(** ** Dictionaries *)

Section dict_facts.
Context {K : Type} `{EqDecision K} {V : Type}.
Implicit Types (d : dict K V) (k : K) (v : V).

Lemma dict_get_set_eq d k v : dict_get (dict_set d k v) k = Some v.
Proof.
  induction d as [|[k' v'] d IH]; simpl.
  - by rewrite decide_True.
  - destruct (decide (k = k')) as [->|Hne]; simpl.
    + by rewrite decide_True.
    + by rewrite decide_False.
Qed.

Lemma dict_get_set_ne d k k' v :
  k ≠ k' → dict_get (dict_set d k v) k' = dict_get d k'.
Proof.
  intros Hne. induction d as [|[k0 v0] d IH]; simpl.
  - by rewrite decide_False.
  - destruct (decide (k = k0)) as [->|Hne0]; simpl.
    + by rewrite !decide_False.
    + destruct (decide (k' = k0)); [reflexivity | exact IH].
Qed.

Lemma dict_get_None d k : dict_get d k = None ↔ k ∉ dict_keys d.
Proof.
  unfold dict_keys. induction d as [|[k' v'] d IH]; simpl.
  - split; [intros _; apply not_elem_of_nil | reflexivity].
  - rewrite not_elem_of_cons. destruct (decide (k = k')) as [->|Hne].
    + split; [discriminate | intros [? _]; congruence].
    + rewrite IH. tauto.
Qed.

Lemma dict_get_Some_keys d k v : dict_get d k = Some v → k ∈ dict_keys d.
Proof.
  intros Hget. destruct (decide (k ∈ dict_keys d)) as [|Hnot]; [done|].
  apply dict_get_None in Hnot. congruence.
Qed.

Lemma dict_mem_true d k : dict_mem k d = true ↔ k ∈ dict_keys d.
Proof.
  unfold dict_mem. destruct (dict_get d k) as [v|] eqn:Hget.
  - split; [intros _; by eapply dict_get_Some_keys | reflexivity].
  - split; [discriminate|]. intros Hin. by apply dict_get_None in Hget.
Qed.

Lemma dict_keys_set d k v :
  dict_keys (dict_set d k v)
  = if dict_mem k d then dict_keys d else dict_keys d ++ [k].
Proof.
  unfold dict_keys, dict_mem. induction d as [|[k' v'] d IH]; simpl; [done|].
  destruct (decide (k = k')) as [->|Hne]; simpl; [done|].
  rewrite IH. by destruct (dict_get d k).
Qed.

Lemma dict_keys_set_NoDup d k v :
  NoDup (dict_keys d) → NoDup (dict_keys (dict_set d k v)).
Proof.
  intros Hnd. rewrite dict_keys_set.
  destruct (dict_mem k d) eqn:Hmem; [done|].
  apply NoDup_app. split_and!; [done | | apply NoDup_singleton].
  intros x Hx ->%list_elem_of_singleton.
  apply dict_mem_true in Hx. congruence.
Qed.

Lemma dict_keys_set_elem d k k' v :
  k' ∈ dict_keys (dict_set d k v) ↔ k' = k ∨ k' ∈ dict_keys d.
Proof.
  rewrite dict_keys_set. destruct (dict_mem k d) eqn:Hmem.
  - apply dict_mem_true in Hmem. split; [tauto | intros [->|?]; done].
  - rewrite elem_of_app, list_elem_of_singleton. tauto.
Qed.

(** Reading a dictionary whose values were all transformed by [f]. *)
Lemma dict_get_map_values {W : Type} (f : V → W) d k :
  dict_get (map (λ '(k', v), (k', f v)) d) k = f <$> dict_get d k.
Proof.
  induction d as [|[k' v'] d IH]; simpl; [done|].
  destruct (decide (k = k')); [done | exact IH].
Qed.

(** A run of assignments [d[k'] = v'] leaves every other key as it was. *)
Lemma dict_get_assign_other (kvs : list (K * V)) d k :
  k ∉ kvs.*1 →
  dict_get (fold_left (λ d kv, dict_set d kv.1 kv.2) kvs d) k = dict_get d k.
Proof.
  revert d. induction kvs as [|[k' v'] kvs IH]; intros d Hk; simpl; [done|].
  rewrite fmap_cons, not_elem_of_cons in Hk. destruct Hk as [Hne Hk].
  rewrite IH by done. simpl. by apply dict_get_set_ne.
Qed.

(** ... and the last assignment to a key is the one that is read. *)
Lemma dict_get_assign_last (kvs1 kvs2 : list (K * V)) d k v :
  k ∉ kvs2.*1 →
  dict_get
    (fold_left (λ d kv, dict_set d kv.1 kv.2) (kvs1 ++ (k, v) :: kvs2) d) k
  = Some v.
Proof.
  intros Hk. rewrite fold_left_app. simpl.
  rewrite dict_get_assign_other by done. apply dict_get_set_eq.
Qed.

Lemma dict_keys_assign_NoDup (kvs : list (K * V)) d :
  NoDup (dict_keys d) →
  NoDup (dict_keys (fold_left (λ d kv, dict_set d kv.1 kv.2) kvs d)).
Proof.
  revert d. induction kvs as [|[k v] kvs IH]; intros d Hd; simpl; [done|].
  apply IH. by apply dict_keys_set_NoDup.
Qed.

Lemma dict_keys_assign_elem (kvs : list (K * V)) d k :
  k ∈ dict_keys (fold_left (λ d kv, dict_set d kv.1 kv.2) kvs d)
  ↔ k ∈ kvs.*1 ∨ k ∈ dict_keys d.
Proof.
  revert d. induction kvs as [|[k' v'] kvs IH]; intros d; simpl.
  - rewrite elem_of_nil. tauto.
  - rewrite IH, dict_keys_set_elem, elem_of_cons. simpl. tauto.
Qed.

Lemma dict_zip_NoDup (ks : list K) (vs : list V) :
  NoDup (dict_keys (dict_zip ks vs)).
Proof. apply dict_keys_assign_NoDup. apply NoDup_nil_2. Qed.

End dict_facts.

(** ** Floating-point comparison *)

Lemma SFleb_not_SFltb (a b : spec_float) :
  SFleb a b = true → SFltb b a = false.
Proof.
  unfold SFleb, SFltb.
  destruct a as [sa|sa| |sa ma ea], b as [sb|sb| |sb mb eb]; simpl;
    try congruence;
    try (destruct sa; try congruence); try (destruct sb; try congruence);
    simpl; try congruence.
  all: rewrite (Z.compare_antisym ea eb); destruct (ea ?= eb)%Z; simpl;
    try congruence.
  all: change (PosDef.Pos.compare_cont Eq) with Pos.compare.
  all: rewrite (Pos.compare_antisym ma mb); destruct (ma ?= mb)%positive;
    simpl; congruence.
Qed.

(** [x <= y] excludes [y < x], also where an operand is infinite. *)
Lemma leb_not_ltb (x y : float) :
  PrimFloat.leb x y = true → PrimFloat.ltb y x = false.
Proof. rewrite leb_spec, ltb_spec. apply SFleb_not_SFltb. Qed.

(** ** Connection parser *)

Lemma connections_loop_from (connections : list connection)
  (current_name : string) (total : float) (connect : list edge) :
  fold_left
    (λ '(total_prob, connect) c,
       (PrimFloat.add total_prob (conn_prob c),
        connect ++ [(current_name, conn_target c, conn_prob c)]))
    connections (total, connect)
  = (fold_left (λ total c, PrimFloat.add total (conn_prob c)) connections
       total,
     connect ++ map (edge_of current_name) connections).
Proof.
  revert total connect.
  induction connections as [|c cs IH]; intros total connect; simpl.
  - by rewrite app_nil_r.
  - rewrite IH. by rewrite <- app_assoc.
Qed.

Lemma connections_loop_eq (connections : list connection)
  (current_name : string) :
  connections_loop connections current_name
  = (total_prob connections, map (edge_of current_name) connections).
Proof. unfold connections_loop. by rewrite connections_loop_from. Qed.

Lemma parse_connections_eq (connections : list connection)
  (current_name : string) :
  parse_connections connections current_name
  = if PrimFloat.ltb 1%float (total_prob connections)
    then Raise (ProbabilityOverflow current_name)
    else Ok (map (edge_of current_name) connections).
Proof. unfold parse_connections. by rewrite connections_loop_eq. Qed.

(** C4: [parse_connections] raises exactly when the sum of the routing
    probabilities is strictly above 1.0, and the error it raises names the
    current station; otherwise, and so when the sum is exactly 1.0, it
    returns one edge record per target, in the order of the input. *)
Theorem parse_connections_overflow_iff (connections : list connection)
  (current_name : string) :
  (parse_connections connections current_name
   = Raise (ProbabilityOverflow current_name)
   ↔ PrimFloat.ltb 1%float (total_prob connections) = true)
  ∧ (∀ e, parse_connections connections current_name = Raise e →
          e = ProbabilityOverflow current_name)
  ∧ (PrimFloat.ltb 1%float (total_prob connections) = false →
     parse_connections connections current_name
     = Ok (map (edge_of current_name) connections))
  ∧ (total_prob connections = 1%float →
     parse_connections connections current_name
     = Ok (map (edge_of current_name) connections)).
Proof.
  rewrite parse_connections_eq. split_and!.
  - destruct (PrimFloat.ltb 1 (total_prob connections)); split; congruence.
  - intros e. destruct (PrimFloat.ltb 1 (total_prob connections)); congruence.
  - by intros ->.
  - by intros ->.
Qed.

Lemma parse_connections_overflow_iff_witness :
  parse_connections [route "B" 0.5; route "C" 0.5] "A"
  = Ok [("A", "B", 0.5%float); ("A", "C", 0.5%float)]
  ∧ parse_connections [route "B" 0.75; route "C" 0.75] "A"
    = Raise (ProbabilityOverflow "A").
Proof.
  split.
  - apply (parse_connections_overflow_iff
             [route "B" 0.5; route "C" 0.5] "A"). reflexivity.
  - apply (parse_connections_overflow_iff
             [route "B" 0.75; route "C" 0.75] "A"). reflexivity.
Defined.

(** ** Distribution parser *)

Lemma split_space_nonempty (s : string) : split_space s ≠ [].
Proof.
  destruct s as [|c s]; simpl; [done|].
  destruct (Ascii.eqb c " "); [done|]. by destruct (split_space s).
Qed.

(** A string with a single segment is that segment. *)
Lemma split_space_singleton (s t : string) : split_space s = [t] → s = t.
Proof.
  revert t. induction s as [|c s IH]; intros t; simpl.
  - by intros [= <-].
  - destruct (Ascii.eqb c " ").
    + intros [= _ Hnil]. by apply split_space_nonempty in Hnil.
    + destruct (split_space s) as [|seg segs] eqn:Hsplit.
      * by apply split_space_nonempty in Hsplit.
      * intros [= <- ->]. f_equal. by apply IH.
Qed.

Section parse_distribution_facts.
Variable py_float : string → option float.

Lemma parse_distribution_NoArrivals :
  parse_distribution py_float "NoArrivals" = Ok NoArrivals.
Proof. reflexivity. Qed.

Lemma parse_distribution_sentinel_inv (s : string) :
  parse_distribution py_float s = Ok NoArrivals → s = "NoArrivals".
Proof.
  unfold parse_distribution.
  destruct (split_space s) as [|dist args] eqn:Hsplit;
    [by apply split_space_nonempty in Hsplit|]. cbn [hd tl].
  destruct (dict_get distributions dist) as [n|] eqn:Hreg; [|discriminate].
  case_bool_decide as Hlen; [discriminate|].
  intros Hbind. apply bind_Ok in Hbind as (fargs & _ & Hret).
  case_bool_decide as Hname; [|discriminate]. subst dist.
  assert (n = 0%nat) as -> by (vm_compute in Hreg; congruence).
  destruct args; [|simpl in Hlen; lia].
  by apply split_space_singleton.
Qed.

(** C7 (amended): [parse_distribution] returns the sentinel exactly on the
    bare string [NoArrivals]; a string whose first segment is [NoArrivals]
    and which has further segments is rejected for its number of
    arguments. *)
Theorem parse_distribution_NoArrivals_iff (s : string) :
  (parse_distribution py_float s = Ok NoArrivals ↔ s = "NoArrivals")
  ∧ (hd EmptyString (split_space s) = "NoArrivals" → s ≠ "NoArrivals" →
     parse_distribution py_float s
     = Raise (ArgumentCount "NoArrivals" 0
                (length (tl (split_space s))))).
Proof.
  split.
  - split; [apply parse_distribution_sentinel_inv|].
    intros ->. apply parse_distribution_NoArrivals.
  - intros Hhd Hne. unfold parse_distribution. rewrite Hhd.
    destruct (split_space s) as [|dist args] eqn:Hsplit;
      [by apply split_space_nonempty in Hsplit|].
    cbn [hd tl] in *. subst dist. destruct args as [|a args].
    + by apply split_space_singleton in Hsplit.
    + reflexivity.
Qed.

End parse_distribution_facts.

Lemma parse_distribution_NoArrivals_iff_witness :
  parse_distribution decimal_float "NoArrivals 1"
  = Raise (ArgumentCount "NoArrivals" 0 1).
Proof.
  apply (parse_distribution_NoArrivals_iff decimal_float "NoArrivals 1");
    [reflexivity | discriminate].
Defined.

(** C7 as stated fails: the first segment of [NoArrivals 1] is
    [NoArrivals], and the parser raises. *)
Lemma parse_distribution_NoArrivals_args_counterexample :
  ¬ (∀ (py_float : string → option float) (s : string),
       hd EmptyString (split_space s) = "NoArrivals" →
       parse_distribution py_float s = Ok NoArrivals).
Proof.
  intros Hclaim.
  specialize (Hclaim decimal_float "NoArrivals 1" eq_refl). discriminate.
Qed.

(** ** Distribution aggregator *)

Lemma dict_get_append_eq {V : Type} (d : dict string (list V)) (k : string)
  (x : V) (l : list V) :
  dict_get d k = Some l → dict_get (dict_append d k x) k = Some (l ++ [x]).
Proof.
  intros Hget. unfold dict_append. rewrite Hget. apply dict_get_set_eq.
Qed.

Lemma dict_get_append_ne {V : Type} (d : dict string (list V))
  (k k' : string) (x : V) :
  k ≠ k' → dict_get (dict_append d k x) k' = dict_get d k'.
Proof.
  intros Hne. unfold dict_append.
  destruct (dict_get d k); [by apply dict_get_set_ne | done].
Qed.

(** One step of the first loop, read at the key it handles ... *)
Lemma add_distribution_eq (current_node : Z)
  (existing : dict string (list descriptor)) (key : string) (v : descriptor) :
  dict_get (add_distribution current_node existing (key, v)) key
  = Some (default (replicate (Z.to_nat (current_node - 1)) NoArrivals)
            (dict_get existing key) ++ [v]).
Proof.
  unfold add_distribution, dict_mem.
  destruct (dict_get existing key) as [l|] eqn:Hget; simpl.
  - by apply dict_get_append_eq.
  - apply dict_get_append_eq, dict_get_set_eq.
Qed.

(** ... and at any other key. *)
Lemma add_distribution_ne (current_node : Z)
  (existing : dict string (list descriptor)) (key key' : string)
  (v : descriptor) :
  key ≠ key' →
  dict_get (add_distribution current_node existing (key, v)) key'
  = dict_get existing key'.
Proof.
  intros Hne. unfold add_distribution.
  rewrite dict_get_append_ne by done.
  destruct (negb (dict_mem key existing)); [by apply dict_get_set_ne | done].
Qed.

Lemma add_distributions_get (current_node : Z) (new : dict string descriptor)
  (existing : dict string (list descriptor)) (key : string) :
  NoDup (dict_keys new) →
  dict_get (fold_left (add_distribution current_node) new existing) key
  = match dict_get new key with
    | Some v =>
        Some (default (replicate (Z.to_nat (current_node - 1)) NoArrivals)
                (dict_get existing key) ++ [v])
    | None => dict_get existing key
    end.
Proof.
  revert existing. induction new as [|[k v] new IH]; intros existing Hnd.
  - reflexivity.
  - unfold dict_keys in Hnd. simpl in Hnd. apply NoDup_cons in Hnd as [Hk Hnd].
    cbn [fold_left]. rewrite IH by done.
    change (dict_get ((k, v) :: new) key)
      with (if decide (key = k) then Some v else dict_get new key).
    destruct (decide (key = k)) as [->|Hne].
    + apply dict_get_None in Hk. rewrite Hk. apply add_distribution_eq.
    + by rewrite add_distribution_ne.
Qed.

(** The mapping returned by [update_distributions], key by key. *)
Lemma update_distributions_get (existing : dict string (list descriptor))
  (new : dict string descriptor) (current_node : Z) (key : string) :
  NoDup (dict_keys new) →
  dict_get (update_distributions existing new current_node) key
  = pad_distribution current_node
      <$> match dict_get new key with
          | Some v =>
              Some (default
                      (replicate (Z.to_nat (current_node - 1)) NoArrivals)
                      (dict_get existing key) ++ [v])
          | None => dict_get existing key
          end.
Proof.
  intros Hnd. unfold update_distributions.
  rewrite dict_get_map_values. by rewrite add_distributions_get.
Qed.

(** Where the running sequence of the key has the length of the stations
    seen before, the padding adds nothing to a sequence that received the
    new value and one [NoArrivals] to one that did not. *)
Lemma update_distributions_merged (existing : dict string (list descriptor))
  (new : dict string descriptor) (current_node : Z) (key : string) :
  (1 ≤ current_node)%Z →
  NoDup (dict_keys new) →
  (∀ l, dict_get existing key = Some l →
        Z.of_nat (length l) = (current_node - 1)%Z) →
  dict_get (update_distributions existing new current_node) key
  = merged_sequence current_node (dict_get existing key) (dict_get new key).
Proof.
  intros Hk Hnd Hlen. rewrite update_distributions_get by done.
  unfold merged_sequence, pad_distribution.
  destruct (dict_get existing key) as [l|], (dict_get new key) as [v|];
    simpl; try reflexivity.
  - specialize (Hlen l eq_refl).
    rewrite bool_decide_eq_false_2; [reflexivity|].
    rewrite length_app. simpl. intros Hne. apply Hne. lia.
  - specialize (Hlen l eq_refl).
    rewrite bool_decide_eq_true_2; [reflexivity|]. lia.
  - rewrite bool_decide_eq_false_2; [reflexivity|].
    rewrite length_app, length_replicate. simpl. intros Hne. apply Hne. lia.
Qed.

Lemma merged_sequence_length (current_node : Z)
  (old : option (list descriptor)) (new : option descriptor)
  (l : list descriptor) :
  (1 ≤ current_node)%Z →
  (∀ l0, old = Some l0 → Z.of_nat (length l0) = (current_node - 1)%Z) →
  merged_sequence current_node old new = Some l →
  Z.of_nat (length l) = current_node.
Proof.
  intros Hk Hlen. unfold merged_sequence.
  destruct old as [l0|], new as [v|]; intros [= <-];
    rewrite length_app, ?length_replicate; simpl;
    try specialize (Hlen l0 eq_refl); lia.
Qed.

(** The length invariant of one call. *)
Lemma update_distributions_length (existing : dict string (list descriptor))
  (new : dict string descriptor) (current_node : Z) :
  (1 ≤ current_node)%Z →
  NoDup (dict_keys new) →
  (∀ key l, dict_get existing key = Some l →
            Z.of_nat (length l) = (current_node - 1)%Z) →
  ∀ key l,
    dict_get (update_distributions existing new current_node) key = Some l →
    Z.of_nat (length l) = current_node.
Proof.
  intros Hk Hnd Hlen key l.
  rewrite update_distributions_merged by eauto.
  apply merged_sequence_length; eauto.
Qed.

(** ** Dictionaries built from two lists *)

Section dict_zip_facts.
Context {K : Type} `{EqDecision K} {V : Type}.

Lemma dict_zip_keys_elem (ks : list K) (vs : list V) (k : K) :
  length ks = length vs → k ∈ dict_keys (dict_zip ks vs) ↔ k ∈ ks.
Proof.
  intros Hlen. unfold dict_zip. rewrite dict_keys_assign_elem.
  rewrite fst_zip by lia. unfold dict_keys. simpl. rewrite elem_of_nil. tauto.
Qed.

Lemma dict_zip_get_None (ks : list K) (vs : list V) (k : K) :
  length ks = length vs → dict_get (dict_zip ks vs) k = None ↔ k ∉ ks.
Proof. intros Hlen. by rewrite dict_get_None, dict_zip_keys_elem. Qed.

(** The value zipped with the last occurrence of a key is the one kept. *)
Lemma dict_zip_get_last (ks1 ks2 : list K) (k : K) (vs1 vs2 : list V)
  (v : V) :
  length ks1 = length vs1 → k ∉ ks2 →
  dict_get (dict_zip (ks1 ++ k :: ks2) (vs1 ++ v :: vs2)) k = Some v.
Proof.
  intros Hlen Hk. unfold dict_zip.
  rewrite zip_with_app by done. simpl.
  apply (dict_get_assign_last (zip ks1 vs1) (zip ks2 vs2) [] k v).
  intros Hin. apply list_elem_of_fmap in Hin as ([k' v'] & -> & Hin).
  apply elem_of_zip_l in Hin. done.
Qed.

End dict_zip_facts.

Lemma class_key_inj (n m : Z) : class_key n = class_key m → n = m.
Proof.
  unfold class_key. intros Heq.
  apply (inj pretty). by apply (inj (String.app "Class ")).
Qed.

Lemma foldM_result_raises {A S : Type} (body : S → A → result S) (x : A)
  (l : list A) (s : S) :
  x ∈ l → (∀ s', is_ok (body s' x) = false) →
  is_ok (foldM_result body s l) = false.
Proof.
  intros Hin Hbody. revert s.
  induction l as [|y l IH]; intros s; [by apply elem_of_nil in Hin|].
  simpl. apply elem_of_cons in Hin as [<-|Hin].
  - specialize (Hbody s). by destruct (body s x).
  - destruct (body s y); [by apply IH | done].
Qed.

(** ** Station parser *)

Section parse_customers_facts.
Variable py_float : string → option float.

(** What the loop adds to its four lists when it ends without raising. *)
Lemma parse_customers_loop (current_name : string) (customers : list customer)
  (acc acc' : customer_lists) :
  foldM_result (parse_customer py_float current_name) acc customers = Ok acc' →
  ∃ servs conns,
    Forall2 (λ c s, parse_service py_float c = Ok s) customers servs
    ∧ Forall2 (λ c e, parse_routing current_name c = Ok e) customers conns
    ∧ acc' = (acc.1.1.1 ++ map (λ c, class_key (cust_class c)) customers,
              acc.1.1.2 ++ map (parse_arrival py_float) customers,
              acc.1.2 ++ servs,
              acc.2 ++ conns).
Proof.
  revert acc. induction customers as [|c cs IH]; intros acc; simpl.
  - intros [= <-]. exists [], []. split_and!; [constructor..|].
    destruct acc as [[[ks ds] ss] es]. simpl. by rewrite !app_nil_r.
  - intros Hloop. apply bind_Ok in Hloop as (acc1 & Hbody & Hloop).
    destruct acc as [[[ks ds] ss] es]. unfold parse_customer in Hbody.
    apply bind_Ok in Hbody as (serv & Hserv & Hbody).
    apply bind_Ok in Hbody as (conn & Hconn & [= <-]).
    apply IH in Hloop as (servs & conns & Hss & Hcs & ->).
    exists (serv :: servs), (conn :: conns).
    split_and!; [by constructor..|]. simpl. by rewrite <- !app_assoc.
Qed.

(** The loop raises exactly when the service specification or the routing
    list of some entry raises: the arrival specifications play no part. *)
Lemma parse_customers_loop_is_ok (current_name : string)
  (customers : list customer) (acc : customer_lists) :
  is_ok (foldM_result (parse_customer py_float current_name) acc customers)
  = forallb (entry_ok py_float current_name) customers.
Proof.
  revert acc. induction customers as [|c cs IH]; intros acc; simpl; [done|].
  destruct acc as [[[ks ds] ss] es]. unfold parse_customer, entry_ok.
  destruct (parse_service py_float c) as [serv|e]; simpl; [|done].
  destruct (parse_routing current_name c) as [conn|e]; simpl; [|done].
  apply IH.
Qed.

Lemma parse_customers_is_ok (customers : list customer)
  (current_name : string) :
  is_ok (parse_customers py_float customers current_name)
  = forallb (entry_ok py_float current_name) customers.
Proof.
  rewrite <- (parse_customers_loop_is_ok _ _ ([], [], [], [])).
  unfold parse_customers.
  destruct (foldM_result _ _ customers) as [[[[ks ds] ss] es]|e]; done.
Qed.

(** The three mappings of a successful [parse_customers]. *)
Lemma parse_customers_Ok (customers : list customer) (current_name : string)
  (r : customer_dists) :
  parse_customers py_float customers current_name = Ok r →
  ∃ servs conns,
    Forall2 (λ c s, parse_service py_float c = Ok s) customers servs
    ∧ Forall2 (λ c e, parse_routing current_name c = Ok e) customers conns
    ∧ let keys := map (λ c, class_key (cust_class c)) customers in
      cd_arrival r = dict_zip keys (map (parse_arrival py_float) customers)
      ∧ cd_service r = dict_zip keys servs
      ∧ cd_connections r = dict_zip keys conns.
Proof.
  unfold parse_customers. intros Hr.
  apply bind_Ok in Hr as ([[[ks ds] ss] es] & Hloop & [= <-]).
  apply parse_customers_loop in Hloop
    as (servs & conns & Hss & Hcs & [= -> -> -> ->]).
  exists servs, conns. simpl. done.
Qed.

(** The keys of the three mappings are the class keys of the entries. *)
Lemma parse_customers_keys (customers : list customer) (current_name : string)
  (r : customer_dists) (n : Z) :
  parse_customers py_float customers current_name = Ok r →
  (dict_mem (class_key n) (cd_arrival r) = true ↔ n ∈ map cust_class customers)
  ∧ (dict_mem (class_key n) (cd_service r) = true
     ↔ n ∈ map cust_class customers)
  ∧ (dict_mem (class_key n) (cd_connections r) = true
     ↔ n ∈ map cust_class customers).
Proof.
  intros Hr.
  apply parse_customers_Ok in Hr as (servs & conns & Hss & Hcs & Ha & Hs & Hc).
  apply Forall2_length in Hss, Hcs.
  assert (class_key n ∈ map (λ c, class_key (cust_class c)) customers
          ↔ n ∈ map cust_class customers) as Hkeys.
  { rewrite !list_elem_of_fmap. split.
    - intros (c & Heq & Hin). apply class_key_inj in Heq. eauto.
    - intros (c & -> & Hin). eauto. }
  rewrite Ha, Hs, Hc, !dict_mem_true.
  rewrite !dict_zip_keys_elem by (by rewrite ?length_map).
  tauto.
Qed.

End parse_customers_facts.

Section station_parser_claims.
Variable py_float : string → option float.

(** The entry that is the last of its class decides the three values of
    the class. *)
Lemma parse_customers_last (pre post : list customer) (c : customer)
  (current_name : string) (r : customer_dists) :
  cust_class c ∉ map cust_class post →
  parse_customers py_float (pre ++ c :: post) current_name = Ok r →
  dict_get (cd_arrival r) (class_key (cust_class c))
  = Some (parse_arrival py_float c)
  ∧ (∃ s, parse_service py_float c = Ok s
          ∧ dict_get (cd_service r) (class_key (cust_class c)) = Some s)
  ∧ (∃ e, parse_routing current_name c = Ok e
          ∧ dict_get (cd_connections r) (class_key (cust_class c)) = Some e).
Proof.
  intros Hlast Hr.
  apply parse_customers_Ok in Hr as (servs & conns & Hss & Hcs & Ha & Hs & Hc).
  apply Forall2_app_inv_l in Hss as (ss1 & ss2 & Hss1 & Hss2 & ->).
  apply Forall2_cons_inv_l in Hss2 as (s & ss2' & Hs0 & Hss2 & ->).
  apply Forall2_app_inv_l in Hcs as (cs1 & cs2 & Hcs1 & Hcs2 & ->).
  apply Forall2_cons_inv_l in Hcs2 as (e & cs2' & He0 & Hcs2 & ->).
  apply Forall2_length in Hss1, Hcs1.
  rewrite map_app in Ha, Hs, Hc. simpl in Ha, Hs, Hc.
  assert (class_key (cust_class c)
          ∉ map (λ c0, class_key (cust_class c0)) post) as Hkey.
  { intros Hin. apply Hlast. apply list_elem_of_fmap in Hin as (c0 & Heq & Hin).
    apply class_key_inj in Heq. rewrite Heq. apply list_elem_of_fmap. eauto. }
  rewrite Ha, Hs, Hc. split_and!.
  - rewrite map_app. simpl.
    apply dict_zip_get_last; [by rewrite !length_map | done].
  - exists s. split; [done|].
    apply dict_zip_get_last; [by rewrite length_map | done].
  - exists e. split; [done|].
    apply dict_zip_get_last; [by rewrite length_map | done].
Qed.

Lemma is_ok_true {A : Type} (m : result A) : is_ok m = true → ∃ a, m = Ok a.
Proof. destruct m as [a|e]; [eauto | discriminate]. Qed.

(** C9: two entries of one station with the same class identifier raise
    nothing by themselves (the parse succeeds as soon as every entry's
    service specification and routing list parse), and the arrival
    distribution, service distribution and connection list kept for the
    class are those of the later entry. *)
Theorem parse_customers_duplicate_class (pre mid post : list customer)
  (earlier later : customer) (current_name : string) :
  cust_class earlier = cust_class later →
  cust_class later ∉ map cust_class post →
  forallb (entry_ok py_float current_name)
    (pre ++ earlier :: mid ++ later :: post) = true →
  ∃ r s e,
    parse_customers py_float (pre ++ earlier :: mid ++ later :: post)
      current_name = Ok r
    ∧ parse_service py_float later = Ok s
    ∧ parse_routing current_name later = Ok e
    ∧ dict_get (cd_arrival r) (class_key (cust_class earlier))
      = Some (parse_arrival py_float later)
    ∧ dict_get (cd_service r) (class_key (cust_class earlier)) = Some s
    ∧ dict_get (cd_connections r) (class_key (cust_class earlier)) = Some e.
Proof.
  intros Hclass Hlast Hok.
  rewrite <- parse_customers_is_ok in Hok.
  apply is_ok_true in Hok as [r Hr].
  pose proof Hr as Hr'.
  replace (pre ++ earlier :: mid ++ later :: post)
    with ((pre ++ earlier :: mid) ++ later :: post) in Hr'
    by (by rewrite <- app_assoc).
  apply parse_customers_last in Hr' as (Ha & (s & Hs & Hgs) & (e & He & Hge));
    [|done].
  exists r, s, e. rewrite Hclass. done.
Qed.

End station_parser_claims.

Lemma parse_customers_duplicate_class_witness :
  ∃ r,
    parse_customers decimal_float
      [customer_of 1 (Some "Exponential 2.0") "Exponential 5.0"
         (Some [route "B" 0.8]);
       customer_of 1 None "Deterministic 1.0" None] "A" = Ok r
    ∧ dict_get (cd_arrival r) "Class 1" = Some NoArrivals
    ∧ dict_get (cd_service r) "Class 1" = Some (Dist "Deterministic" [1%float])
    ∧ dict_get (cd_connections r) "Class 1" = Some [].
Proof.
  destruct (parse_customers_duplicate_class decimal_float [] [] []
              (customer_of 1 (Some "Exponential 2.0") "Exponential 5.0"
                 (Some [route "B" 0.8]))
              (customer_of 1 None "Deterministic 1.0" None) "A")
    as (r & s & e & Hr & Hs & He & Ha & Hgs & Hge).
  - reflexivity.
  - apply not_elem_of_nil.
  - reflexivity.
  - exists r. injection Hs as <-. injection He as <-. done.
Defined.

(** ** Columns of the aggregated mappings *)

Lemma column_length (ds : list (dict string descriptor)) (key : string) :
  length (column ds key) = length ds.
Proof. apply length_map. Qed.

Lemma column_app (ds1 ds2 : list (dict string descriptor)) (key : string) :
  column (ds1 ++ ds2) key = column ds1 key ++ column ds2 key.
Proof. apply map_app. Qed.

Lemma seen_app (ds1 ds2 : list (dict string descriptor)) (key : string) :
  seen (ds1 ++ ds2) key = seen ds1 key || seen ds2 key.
Proof. apply existsb_app. Qed.

Lemma column_unseen (ds : list (dict string descriptor)) (key : string) :
  seen ds key = false → column ds key = replicate (length ds) NoArrivals.
Proof.
  induction ds as [|d ds IH]; simpl; [done|].
  intros [Hd Hds]%orb_false_iff. rewrite IH by done. f_equal.
  unfold dict_mem in Hd. by destruct (dict_get d key).
Qed.

(** The position of a station that has no entry for the class holds
    [NoArrivals]. *)
Lemma column_lookup_absent (ds : list (dict string descriptor))
  (key : string) (j : nat) (d : dict string descriptor) :
  ds !! j = Some d → dict_mem key d = false →
  column ds key !! j = Some NoArrivals.
Proof.
  intros Hj Hd. unfold column. rewrite list_lookup_fmap, Hj. simpl.
  unfold dict_mem in Hd. by destruct (dict_get d key).
Qed.

Lemma seen_lookup (ds : list (dict string descriptor)) (key : string)
  (i : nat) (d : dict string descriptor) :
  ds !! i = Some d → dict_mem key d = true → seen ds key = true.
Proof.
  intros Hi Hd. apply existsb_exists. exists d. split; [|done].
  apply list_elem_of_In. by eapply list_elem_of_lookup_2.
Qed.

(** Folding one more station into mappings that hold the aggregate of the
    stations before it gives the aggregate with that station. *)
Lemma aggregated_step (ds : list (dict string descriptor))
  (existing : dict string (list descriptor)) (new : dict string descriptor)
  (current_node : Z) :
  current_node = (Z.of_nat (length ds) + 1)%Z →
  NoDup (dict_keys new) →
  (∀ key, dict_get existing key = aggregated ds key) →
  ∀ key, dict_get (update_distributions existing new current_node) key
         = aggregated (ds ++ [new]) key.
Proof.
  intros -> Hnd Hagg key.
  rewrite update_distributions_merged; [|lia|done|].
  - rewrite Hagg. unfold aggregated, merged_sequence.
    rewrite seen_app, column_app. simpl. rewrite orb_false_r.
    unfold dict_mem.
    destruct (seen ds key) eqn:Hseen, (dict_get new key) as [v|];
      simpl; try reflexivity.
    rewrite column_unseen by done. do 3 f_equal. lia.
  - intros l. rewrite Hagg. unfold aggregated.
    destruct (seen ds key); [|discriminate].
    intros [= <-]. rewrite column_length. lia.
Qed.

Lemma aggregated_length (ds : list (dict string descriptor)) (key : string)
  (l : list descriptor) :
  aggregated ds key = Some l → length l = length ds.
Proof.
  unfold aggregated. destruct (seen ds key); [|discriminate].
  intros [= <-]. apply column_length.
Qed.

(** ** The loop over the stations *)

Section build_loop.
Variable py_float : string → option float.

Lemma build_inv_initial : build_inv [] initial_state.
Proof.
  unfold build_inv. simpl. split_and!; try done.
  intros name. unfold dict_mem. simpl. rewrite elem_of_nil.
  split; [discriminate | done].
Qed.

Lemma parse_station_Ok (station : station) (node : node) :
  parse_station py_float station = Ok node →
  ∃ r, parse_customers py_float (st_customers station) (st_name station) = Ok r
       ∧ node_name node = st_name station
       ∧ node_arrivals node = cd_arrival r
       ∧ node_service node = cd_service r
       ∧ node_connections node = cd_connections r.
Proof.
  unfold parse_station. intros Hnode.
  apply bind_Ok in Hnode as (r & Hr & [= <-]). by exists r.
Qed.

Lemma parse_station_NoDup (station : station) (node : node) :
  parse_station py_float station = Ok node →
  NoDup (dict_keys (node_arrivals node))
  ∧ NoDup (dict_keys (node_service node)).
Proof.
  intros (r & Hr & _ & -> & -> & _)%parse_station_Ok.
  apply parse_customers_Ok in Hr as (servs & conns & _ & _ & -> & -> & _).
  split; apply dict_zip_NoDup.
Qed.

(** The classes that a parsed station holds are those of its entries. *)
Lemma parse_station_classes (station : station) (node : node) (n : Z) :
  parse_station py_float station = Ok node →
  (dict_mem (class_key n) (node_arrivals node) = true
   ↔ n ∈ classes_of station)
  ∧ (dict_mem (class_key n) (node_service node) = true
     ↔ n ∈ classes_of station).
Proof.
  intros (r & Hr & _ & -> & -> & _)%parse_station_Ok.
  apply (parse_customers_keys _ _ _ _ n) in Hr as (Ha & Hs & _). done.
Qed.

Lemma build_step_inv (done : list node) (s s' : build_state)
  (station : station) :
  build_inv done s → build_step py_float s station = Ok s' →
  ∃ node, parse_station py_float station = Ok node
          ∧ (node_name node ∉ map node_name done)
          ∧ build_inv (done ++ [node]) s'.
Proof.
  intros (Hcur & Hnames & Harr & Hserv) Hstep. unfold build_step in Hstep.
  apply bind_Ok in Hstep as (node & Hnode & Hstep).
  destruct (dict_mem (node_name node) (bs_names_to_nodes s)) eqn:Hmem;
    [discriminate|].
  injection Hstep as <-. exists node. split_and!; [done| |].
  - rewrite <- Hnames. congruence.
  - destruct (parse_station_NoDup _ _ Hnode) as [Hnda Hnds].
    unfold build_inv. simpl. rewrite !map_app, length_app. simpl.
    split_and!.
    + lia.
    + intros name. rewrite dict_mem_true, dict_keys_set_elem, elem_of_app.
      rewrite list_elem_of_singleton, <- Hnames, dict_mem_true. tauto.
    + apply aggregated_step; [rewrite length_map; lia | done | done].
    + apply aggregated_step; [rewrite length_map; lia | done | done].
Qed.

Lemma build_loop_inv (stations : list station) (done : list node)
  (s s' : build_state) :
  build_inv done s →
  foldM_result (build_step py_float) s stations = Ok s' →
  ∃ nodes,
    Forall2 (λ st nd, parse_station py_float st = Ok nd) stations nodes
    ∧ build_inv (done ++ nodes) s'.
Proof.
  revert done s. induction stations as [|st stations IH]; intros done s Hinv.
  - simpl. intros [= <-]. exists []. rewrite app_nil_r. split; [constructor | done].
  - simpl. intros Hloop. apply bind_Ok in Hloop as (s1 & Hstep & Hloop).
    destruct (build_step_inv _ _ _ _ Hinv Hstep) as (nd & Hnd & _ & Hinv1).
    destruct (IH _ _ Hinv1 Hloop) as (nodes & Hnodes & Hinv').
    exists (nd :: nodes). rewrite <- app_assoc in Hinv'.
    split; [by constructor | done].
Qed.

(** What [build_params] returns, in terms of the parsed stations. *)
Lemma build_params_Ok (stations : list station) (p : params) :
  build_params py_float stations = Ok p →
  ∃ nodes,
    Forall2 (λ st nd, parse_station py_float st = Ok nd) stations nodes
    ∧ (∀ key, dict_get (Arrival_distributions p) key
              = aggregated (map node_arrivals nodes) key)
    ∧ (∀ key, dict_get (Service_distributions p) key
              = aggregated (map node_service nodes) key).
Proof.
  unfold build_params. intros Hp.
  apply bind_Ok in Hp as (s & Hloop & Hp).
  apply bind_Ok in Hp as (matrices & _ & [= <-]). simpl.
  destruct (build_loop_inv _ _ _ _ build_inv_initial Hloop)
    as (nodes & Hnodes & _ & _ & Harr & Hserv).
  by exists nodes.
Qed.

End build_loop.

(** ** The aggregated sequences *)

Section aggregator_claims.
Variable py_float : string → option float.

(** C3: one call of [update_distributions] for the station of index
    [current_node], on a running mapping whose sequences all have length
    [current_node - 1], returns a mapping whose sequences all have length
    [current_node]: a key that is new starts from [current_node - 1]
    placeholders and receives its value, a key of the running mapping
    receives its value or, when the station has none, one [NoArrivals].
    Hence every arrival and service sequence returned by [build_params] is
    as long as the list of stations. *)
Theorem update_distributions_invariant
  (existing : dict string (list descriptor)) (new : dict string descriptor)
  (current_node : Z) (stations : list station) :
  ((1 ≤ current_node)%Z →
   NoDup (dict_keys new) →
   (∀ key l, dict_get existing key = Some l →
             Z.of_nat (length l) = (current_node - 1)%Z) →
   (∀ key l,
      dict_get (update_distributions existing new current_node) key = Some l →
      Z.of_nat (length l) = current_node)
   ∧ (∀ key,
        dict_get (update_distributions existing new current_node) key
        = merged_sequence current_node (dict_get existing key)
            (dict_get new key)))
  ∧ (∀ p key l,
       build_params py_float stations = Ok p →
       dict_get (Arrival_distributions p) key = Some l
       ∨ dict_get (Service_distributions p) key = Some l →
       length l = length stations).
Proof.
  split.
  - intros Hk Hnd Hlen. split.
    + by apply update_distributions_length.
    + intros key. apply update_distributions_merged; eauto.
  - intros p key l Hp Hl.
    apply build_params_Ok in Hp as (nodes & Hnodes & Harr & Hserv).
    apply Forall2_length in Hnodes. rewrite Hnodes.
    destruct Hl as [Hl|Hl].
    + rewrite Harr in Hl. apply aggregated_length in Hl.
      by rewrite length_map in Hl.
    + rewrite Hserv in Hl. apply aggregated_length in Hl.
      by rewrite length_map in Hl.
Qed.

(** C6: a class that some station defines and another station lacks has
    an arrival sequence and a service sequence in the result (the lookup
    of its key succeeds), and both hold [NoArrivals] at the position of the
    station that lacks it; the position [j] of a station in the input is
    its node index minus one. *)
Theorem absent_class_is_NoArrivals (stations : list station) (p : params)
  (i j : nat) (defining lacking : station) (n : Z) :
  build_params py_float stations = Ok p →
  stations !! i = Some defining → n ∈ classes_of defining →
  stations !! j = Some lacking → n ∉ classes_of lacking →
  ∃ arrivals services,
    dict_get (Arrival_distributions p) (class_key n) = Some arrivals
    ∧ arrivals !! j = Some NoArrivals
    ∧ dict_get (Service_distributions p) (class_key n) = Some services
    ∧ services !! j = Some NoArrivals.
Proof.
  intros Hp Hi Hdef Hj Hlack.
  apply build_params_Ok in Hp as (nodes & Hnodes & Harr & Hserv).
  destruct (Forall2_lookup_l _ _ _ _ _ Hnodes Hi) as (ni & Hni & Hparse_i).
  destruct (Forall2_lookup_l _ _ _ _ _ Hnodes Hj) as (nj & Hnj & Hparse_j).
  destruct (parse_station_classes py_float _ _ n Hparse_i) as [Hai Hsi].
  destruct (parse_station_classes py_float _ _ n Hparse_j) as [Haj Hsj].
  exists (column (map node_arrivals nodes) (class_key n)),
         (column (map node_service nodes) (class_key n)).
  rewrite Harr, Hserv. unfold aggregated.
  rewrite (seen_lookup (map node_arrivals nodes) _ i (node_arrivals ni));
    [|by rewrite list_lookup_fmap, Hni | by apply Hai].
  rewrite (seen_lookup (map node_service nodes) _ i (node_service ni));
    [|by rewrite list_lookup_fmap, Hni | by apply Hsi].
  split_and!; try reflexivity.
  - apply (column_lookup_absent _ _ _ (node_arrivals nj));
      [by rewrite list_lookup_fmap, Hnj|].
    apply not_true_is_false. by rewrite Haj.
  - apply (column_lookup_absent _ _ _ (node_service nj));
      [by rewrite list_lookup_fmap, Hnj|].
    apply not_true_is_false. by rewrite Hsj.
Qed.

End aggregator_claims.

Lemma update_distributions_invariant_witness :
  (∀ key l,
     dict_get
       (update_distributions [("Class 1", [Dist "Exponential" [2%float]])]
          [("Class 2", NoArrivals)] 2) key = Some l →
     Z.of_nat (length l) = 2%Z)
  ∧ (∀ p key l,
       build_params decimal_float [station_A; station_B; station_C] = Ok p →
       dict_get (Arrival_distributions p) key = Some l
       ∨ dict_get (Service_distributions p) key = Some l →
       length l = 3%nat).
Proof.
  destruct (update_distributions_invariant decimal_float
              [("Class 1", [Dist "Exponential" [2%float]])]
              [("Class 2", NoArrivals)] 2
              [station_A; station_B; station_C]) as [Hcall Hall].
  split; [|exact Hall].
  apply Hcall.
  - lia.
  - apply NoDup_singleton.
  - intros key l. simpl. destruct (decide (key = "Class 1")); [|discriminate].
    intros [= <-]. reflexivity.
Defined.

Lemma absent_class_is_NoArrivals_witness :
  ∃ p arrivals services,
    build_params decimal_float [station_A; station_B; station_C] = Ok p
    ∧ dict_get (Arrival_distributions p) "Class 1" = Some arrivals
    ∧ arrivals !! 2%nat = Some NoArrivals
    ∧ dict_get (Service_distributions p) "Class 1" = Some services
    ∧ services !! 2%nat = Some NoArrivals.
Proof.
  destruct (build_params decimal_float [station_A; station_B; station_C])
    as [p|e] eqn:Hp; [|vm_compute in Hp; discriminate].
  destruct (absent_class_is_NoArrivals decimal_float
              [station_A; station_B; station_C] p 0 2 station_A station_C 1)
    as (arrivals & services & Ha & Haj & Hs & Hsj).
  - exact Hp.
  - reflexivity.
  - apply list_elem_of_singleton. reflexivity.
  - reflexivity.
  - intros Hin. apply list_elem_of_singleton in Hin. discriminate.
  - exists p, arrivals, services. done.
Defined.

(** ** Failures of the build *)

Section build_failures.
Variable py_float : string → option float.

Lemma parse_customers_raises (customers : list customer) (c : customer)
  (current_name : string) :
  c ∈ customers → entry_ok py_float current_name c = false →
  is_ok (parse_customers py_float customers current_name) = false.
Proof.
  intros Hin Hc. rewrite parse_customers_is_ok.
  apply not_true_is_false. intros Hall.
  rewrite forallb_forall in Hall. apply list_elem_of_In in Hin.
  specialize (Hall _ Hin). congruence.
Qed.

(** The loop of [parse_customers] re-raises the error of the first entry
    that fails. *)
Lemma parse_customers_first_failure (pre post : list customer)
  (c : customer) (current_name : string) (e : error) :
  forallb (entry_ok py_float current_name) pre = true →
  (∀ acc, parse_customer py_float current_name acc c = Raise e) →
  parse_customers py_float (pre ++ c :: post) current_name = Raise e.
Proof.
  intros Hpre Hc. unfold parse_customers. rewrite foldM_result_app.
  rewrite <- (parse_customers_loop_is_ok _ _ _ ([], [], [], [])) in Hpre.
  apply is_ok_true in Hpre as [acc ->]. simpl. by rewrite Hc.
Qed.

Lemma parse_customer_service_raises (current_name : string)
  (acc : customer_lists) (c : customer) (e : error) :
  parse_service py_float c = Raise e →
  parse_customer py_float current_name acc c = Raise e.
Proof.
  intros Hc. destruct acc as [[[ks ds] ss] es]. unfold parse_customer.
  by rewrite Hc.
Qed.

Lemma build_step_parse_raises (s : build_state) (station : station) :
  is_ok (parse_station py_float station) = false →
  is_ok (build_step py_float s station) = false.
Proof.
  unfold build_step. by destruct (parse_station py_float station).
Qed.

Lemma build_params_loop_raises (stations : list station) :
  is_ok (foldM_result (build_step py_float) initial_state stations) = false →
  is_ok (build_params py_float stations) = false.
Proof.
  unfold build_params. by destruct (foldM_result _ _ stations).
Qed.

(** A station one of whose entries fails aborts the build. *)
Lemma build_params_entry_raises (stations : list station) (station : station)
  (c : customer) :
  station ∈ stations → c ∈ st_customers station →
  entry_ok py_float (st_name station) c = false →
  is_ok (build_params py_float stations) = false.
Proof.
  intros Hst Hc Hfail. apply build_params_loop_raises.
  apply (foldM_result_raises _ station); [done|].
  intros s. apply build_step_parse_raises. unfold parse_station.
  pose proof (parse_customers_raises _ _ _ Hc Hfail) as Hraise.
  by destruct (parse_customers py_float _ _).
Qed.

End build_failures.

(** ** Duplicate station names *)

Section duplicate_names.
Variable py_float : string → option float.

Lemma parsed_names (stations : list station) (nodes : list node) :
  Forall2 (λ st nd, parse_station py_float st = Ok nd) stations nodes →
  map node_name nodes = map st_name stations.
Proof.
  induction 1 as [|st nd stations nodes Hnd _ IH]; simpl; [done|].
  apply parse_station_Ok in Hnd as (r & _ & -> & _). by rewrite IH.
Qed.

(** After a loop that ended well, the names in [names_to_nodes] are those
    of the stations it went through. *)
Lemma build_loop_names (stations : list station) (s : build_state)
  (name : string) :
  foldM_result (build_step py_float) initial_state stations = Ok s →
  dict_mem name (bs_names_to_nodes s) = true ↔ name ∈ map st_name stations.
Proof.
  intros Hloop.
  destruct (build_loop_inv py_float _ _ _ _ build_inv_initial Hloop)
    as (nodes & Hnodes & _ & Hnames & _).
  rewrite Hnames. simpl. by rewrite (parsed_names _ _ Hnodes).
Qed.

(** C8 (amended): when the stations before [station] went through the loop
    without an error and [station] bears the name of one of them, the loop
    over the stations raises at [station]: the duplicate-name error when
    the station itself parses, and the error of its own parse otherwise,
    because a station is parsed before its name is tested.  In both cases
    the error is the result of the loop, so [build_matrices] is never run
    and no parameters are returned, whatever the stations after it are. *)
Theorem duplicate_station_name (pre post : list station) (station : station)
  (s : build_state) :
  foldM_result (build_step py_float) initial_state pre = Ok s →
  st_name station ∈ map st_name pre →
  (is_ok (parse_station py_float station) = true →
   foldM_result (build_step py_float) initial_state (pre ++ station :: post)
   = Raise (DuplicateStationName (st_name station))
   ∧ build_params py_float (pre ++ station :: post)
     = Raise (DuplicateStationName (st_name station)))
  ∧ (∀ e, parse_station py_float station = Raise e →
       foldM_result (build_step py_float) initial_state
         (pre ++ station :: post) = Raise e
       ∧ build_params py_float (pre ++ station :: post) = Raise e)
  ∧ is_ok (foldM_result (build_step py_float) initial_state
             (pre ++ station :: post)) = false
  ∧ is_ok (build_params py_float (pre ++ station :: post)) = false.
Proof.
  intros Hpre Hname.
  assert (foldM_result (build_step py_float) initial_state
            (pre ++ station :: post)
          = bind (build_step py_float s station)
              (λ s', foldM_result (build_step py_float) s' post)) as Hloop.
  { rewrite foldM_result_app, Hpre. reflexivity. }
  apply (build_loop_names _ _ _ Hpre) in Hname.
  assert (is_ok (parse_station py_float station) = true →
          build_step py_float s station
          = Raise (DuplicateStationName (st_name station))) as Hstep.
  { intros [nd Hnd]%is_ok_true. unfold build_step. rewrite Hnd. simpl.
    apply parse_station_Ok in Hnd as (r & _ & -> & _). by rewrite Hname. }
  assert (∀ e, parse_station py_float station = Raise e →
               build_step py_float s station = Raise e) as Hstep'.
  { intros e He. unfold build_step. by rewrite He. }
  assert (is_ok (foldM_result (build_step py_float) initial_state
                   (pre ++ station :: post)) = false) as Hfail.
  { rewrite Hloop.
    destruct (parse_station py_float station) as [nd|e] eqn:Hparse.
    - by rewrite Hstep.
    - by rewrite (Hstep' e). }
  split_and!.
  - intros Hparse. rewrite Hstep in Hloop by done.
    split; [exact Hloop|]. unfold build_params. by rewrite Hloop.
  - intros e He. rewrite (Hstep' e He) in Hloop.
    split; [exact Hloop|]. unfold build_params. by rewrite Hloop.
  - exact Hfail.
  - by apply build_params_loop_raises.
Qed.

End duplicate_names.

Lemma duplicate_station_name_witness :
  build_params decimal_float [station_A; station_B; station_A; station_C]
  = Raise (DuplicateStationName "A")
  ∧ build_params decimal_float [station_A; station_A_unserved; station_C]
    = Raise (KeyError "service").
Proof.
  split.
  - destruct (foldM_result (build_step decimal_float) initial_state
                [station_A; station_B]) as [s|e] eqn:Hpre;
      [|vm_compute in Hpre; discriminate].
    destruct (duplicate_station_name decimal_float [station_A; station_B]
                [station_C] station_A s) as ([_ Hraise] & _).
    + exact Hpre.
    + apply elem_of_cons. left. reflexivity.
    + reflexivity.
    + exact Hraise.
  - destruct (foldM_result (build_step decimal_float) initial_state
                [station_A]) as [s|e] eqn:Hpre;
      [|vm_compute in Hpre; discriminate].
    destruct (duplicate_station_name decimal_float [station_A]
                [station_C] station_A_unserved s) as (_ & Hparse & _).
    + exact Hpre.
    + apply list_elem_of_singleton. reflexivity.
    + apply (Hparse (KeyError "service")). reflexivity.
Defined.

(** C8 as stated fails: the second station repeats the name A, and the
    build fails with the error of its missing service specification, not
    with the duplicate-name error. *)
Lemma duplicate_station_name_counterexample :
  st_name station_A_unserved ∈ map st_name [station_A]
  ∧ is_ok (foldM_result (build_step decimal_float) initial_state [station_A])
    = true
  ∧ build_params decimal_float [station_A; station_A_unserved]
    = Raise (KeyError "service")
  ∧ build_params decimal_float [station_A; station_A_unserved]
    ≠ Raise (DuplicateStationName "A").
Proof.
  split_and!.
  - apply list_elem_of_singleton. reflexivity.
  - reflexivity.
  - reflexivity.
  - discriminate.
Qed.

(** ** The graph and its matrix *)

Lemma add_node_elem (nodes : list Z) (u x : Z) :
  x ∈ add_node nodes u ↔ x = u ∨ x ∈ nodes.
Proof.
  unfold add_node. case_bool_decide as Hin.
  - split; [tauto | intros [->|?]; done].
  - rewrite elem_of_app, list_elem_of_singleton. tauto.
Qed.

Lemma add_node_NoDup (nodes : list Z) (u : Z) :
  NoDup nodes → NoDup (add_node nodes u).
Proof.
  intros Hnd. unfold add_node. case_bool_decide as Hin; [done|].
  apply NoDup_app. split_and!; [done | | apply NoDup_singleton].
  by intros x Hx ->%list_elem_of_singleton.
Qed.

Lemma add_edge_nodes (g : DiGraph) (u v : Z) (w : float) (x : Z) :
  x ∈ dg_nodes (add_edge g (u, v, w)) ↔ x = u ∨ x = v ∨ x ∈ dg_nodes g.
Proof. simpl. rewrite !add_node_elem. tauto. Qed.

(** The nodes of the graph are the endpoints of the edges added to it. *)
Lemma add_edges_from_nodes (es : list (Z * Z * float)) (g : DiGraph) (x : Z) :
  x ∈ dg_nodes (add_edges_from g es)
  ↔ x ∈ dg_nodes g ∨ ∃ u v w, (u, v, w) ∈ es ∧ (x = u ∨ x = v).
Proof.
  unfold add_edges_from. revert g.
  induction es as [|[[u v] w] es IH]; intros g; cbn [fold_left].
  - split; [by left|]. intros [?|(u & v & w & Hin & _)]; [done|].
    by apply elem_of_nil in Hin.
  - rewrite IH, add_edge_nodes. split.
    + intros [[->|[->|Hx]]|(u' & v' & w' & Hin & Hx)].
      * right. exists u, v, w. split; [left|]; eauto.
      * right. exists u, v, w. split; [left|]; eauto.
      * by left.
      * right. exists u', v', w'. split; [by right | done].
    + intros [Hx|(u' & v' & w' & Hin & Hx)]; [tauto|].
      apply elem_of_cons in Hin as [[= -> -> ->]|Hin]; [tauto|].
      right. eauto 6.
Qed.

Lemma add_edges_from_NoDup (es : list (Z * Z * float)) (g : DiGraph) :
  NoDup (dg_nodes g) → NoDup (dg_nodes (add_edges_from g es)).
Proof.
  unfold add_edges_from. revert g.
  induction es as [|[[u v] w] es IH]; intros g Hnd; simpl; [done|].
  apply IH. simpl. by do 2 apply add_node_NoDup.
Qed.

(** The records of the graph are assigned edge by edge. *)
Lemma add_edges_from_adj (es : list (Z * Z * float)) (g : DiGraph) :
  dg_adj (add_edges_from g es)
  = fold_left (λ d kv, dict_set d kv.1 kv.2)
      (map (λ e, ((e.1.1, e.1.2), e.2)) es) (dg_adj g).
Proof.
  unfold add_edges_from. revert g.
  induction es as [|[[u v] w] es IH]; intros g; simpl; [done|].
  by rewrite IH.
Qed.

(** The weight kept for a pair of nodes is that of the last edge between
    them. *)
Lemma add_edges_from_last (es1 es2 : list (Z * Z * float)) (g : DiGraph)
  (u v : Z) (w : float) :
  (∀ w', (u, v, w') ∉ es2) →
  dict_get (dg_adj (add_edges_from g (es1 ++ (u, v, w) :: es2))) (u, v)
  = Some w.
Proof.
  intros Hlast. rewrite add_edges_from_adj, map_app. simpl.
  apply dict_get_assign_last.
  intros Hin. apply list_elem_of_fmap in Hin as ([k w'] & Hk & Hin).
  apply list_elem_of_fmap in Hin as ([[u' v'] w''] & [= -> ->] & Hin).
  simpl in Hk. injection Hk as -> ->. by apply (Hlast w'').
Qed.

Lemma to_numpy_matrix_length (g : DiGraph) :
  length (to_numpy_matrix g) = length (dg_nodes g).
Proof. apply length_map. Qed.

Lemma to_numpy_matrix_rows (g : DiGraph) :
  Forall (λ row, length row = length (dg_nodes g)) (to_numpy_matrix g).
Proof.
  unfold to_numpy_matrix. apply Forall_fmap, Forall_forall.
  intros u _. simpl. apply length_map.
Qed.

Lemma lookup_map {A B : Type} (f : A → B) (l : list A) (i : nat) :
  map f l !! i = f <$> l !! i.
Proof. exact (list_lookup_fmap f l i). Qed.

(** The entry at the positions of two nodes is the weight of their edge. *)
Lemma to_numpy_matrix_entry (g : DiGraph) (i j : nat) (u v : Z) :
  dg_nodes g !! i = Some u → dg_nodes g !! j = Some v →
  matrix_entry (to_numpy_matrix g) i j = Some (edge_weight g u v).
Proof.
  intros Hi Hj. unfold matrix_entry, to_numpy_matrix, matrix.
  rewrite lookup_map, Hi. simpl. by rewrite lookup_map, Hj.
Qed.

Lemma mapM_result_length {A B : Type} (f : A → result B) (l : list A)
  (l' : list B) :
  mapM_result f l = Ok l' → length l = length l'.
Proof.
  revert l'. induction l as [|x l IH]; intros l'; simpl.
  - by intros [= <-].
  - intros Hl. apply bind_Ok in Hl as (y & _ & Hl).
    apply bind_Ok in Hl as (ys & Hys & [= <-]). simpl. f_equal. by apply IH.
Qed.

(** The matrix of a class with edges: its dimension is the number of nodes
    of the graph, that is of distinct endpoints of the edges. *)
Lemma transition_matrix_edges (names_to_nodes : dict string Z)
  (num_nodes : nat) (c : list edge) (es : list (Z * Z * float)) :
  c ≠ [] → mapM_result (number_edge names_to_nodes) c = Ok es →
  transition_matrix names_to_nodes num_nodes c
  = Ok (to_numpy_matrix (add_edges_from empty_DiGraph es)).
Proof.
  intros Hc Hes. unfold transition_matrix.
  rewrite bool_decide_eq_true_2 by (destruct c; simpl; [done | lia]).
  by rewrite Hes.
Qed.

(** The matrix of a class without edges: the zero matrix over all
    stations. *)
Lemma transition_matrix_no_edges (names_to_nodes : dict string Z)
  (num_nodes : nat) :
  transition_matrix names_to_nodes num_nodes []
  = Ok (replicate num_nodes (replicate num_nodes 0%float)).
Proof. reflexivity. Qed.

(** ** Transition matrices *)

(** C2 (amended): when the numbered edges of a class name the same ordered
    pair of nodes more than once, the entry of the matrix at the positions
    of the two nodes is the probability of the last such edge (and [0.0]
    should that be a NaN): a later edge replaces the weight of an earlier
    one, the weights are not added. *)
Theorem repeated_edge_last_weight (names_to_nodes : dict string Z)
  (num_nodes : nat) (c : list edge) (es1 es2 : list (Z * Z * float))
  (u v : Z) (w : float) :
  mapM_result (number_edge names_to_nodes) c = Ok (es1 ++ (u, v, w) :: es2) →
  (∀ w', (u, v, w') ∉ es2) →
  ∃ m i j,
    transition_matrix names_to_nodes num_nodes c = Ok m
    ∧ dg_nodes (add_edges_from empty_DiGraph (es1 ++ (u, v, w) :: es2)) !! i
      = Some u
    ∧ dg_nodes (add_edges_from empty_DiGraph (es1 ++ (u, v, w) :: es2)) !! j
      = Some v
    ∧ matrix_entry m i j
      = Some (if PrimFloat.is_nan w then 0%float else w).
Proof.
  intros Hes Hlast.
  set (g := add_edges_from empty_DiGraph (es1 ++ (u, v, w) :: es2)).
  assert (c ≠ []) as Hc.
  { intros ->. apply mapM_result_length in Hes.
    rewrite length_app in Hes. simpl in Hes. lia. }
  assert ((u, v, w) ∈ es1 ++ (u, v, w) :: es2) as Hin.
  { apply elem_of_app. right. by left. }
  assert (u ∈ dg_nodes g) as Hu.
  { apply add_edges_from_nodes. right. exists u, v, w. eauto. }
  assert (v ∈ dg_nodes g) as Hv.
  { apply add_edges_from_nodes. right. exists u, v, w. eauto. }
  apply list_elem_of_lookup_1 in Hu as [i Hi].
  apply list_elem_of_lookup_1 in Hv as [j Hj].
  exists (to_numpy_matrix g), i, j. split_and!; [|done..|].
  - by apply transition_matrix_edges.
  - rewrite (to_numpy_matrix_entry g i j u v) by done.
    unfold edge_weight, g. by rewrite add_edges_from_last.
Qed.

Lemma repeated_edge_last_weight_witness :
  ∃ m i j,
    transition_matrix [("A", 1%Z); ("B", 2%Z)] 2
      [("A", "B", 0.3%float); ("A", "B", 0.2%float)] = Ok m
    ∧ matrix_entry m i j = Some 0.2%float.
Proof.
  destruct (repeated_edge_last_weight [("A", 1%Z); ("B", 2%Z)] 2
              [("A", "B", 0.3%float); ("A", "B", 0.2%float)]
              [(1%Z, 2%Z, 0.3%float)] [] 1 2 0.2%float)
    as (m & i & j & Hm & _ & _ & Hentry).
  - reflexivity.
  - intros w'. apply not_elem_of_nil.
  - exists m, i, j. split; [exact Hm | exact Hentry].
Defined.

Lemma float_lt_neq (x y : float) : PrimFloat.ltb x y = true → x ≠ y.
Proof.
  intros Hlt ->. rewrite ltb_spec in Hlt. unfold SFltb in Hlt.
  destruct (Prim2SF y) as [s|s| |s m e]; simpl in Hlt; try discriminate;
    destruct s; try discriminate.
  all: rewrite Z.compare_refl in Hlt.
  all: change (PosDef.Pos.compare_cont Eq) with Pos.compare in Hlt.
  all: rewrite Pos.compare_refl in Hlt; discriminate.
Qed.

(** C2 as stated fails: station A routes class 1 to B with probabilities
    0.3 and 0.2, and the entry of the matrix for (A, B) is 0.2, which is
    neither 0.5 nor the sum of the two. *)
Lemma repeated_edge_sum_counterexample :
  ∃ p m x,
    build_params decimal_float [station_A_twice; station_B] = Ok p
    ∧ dict_get (Transition_matrices p) "Class 1" = Some m
    ∧ m = [[0; 0.2]; [0; 0]]%float
    ∧ matrix_entry m 0 1 = Some x
    ∧ x ≠ 0.5%float
    ∧ x ≠ PrimFloat.add 0.3 0.2.
Proof.
  eexists _, _, _. split_and!.
  - vm_compute. reflexivity.
  - reflexivity.
  - reflexivity.
  - reflexivity.
  - by apply float_lt_neq.
  - by apply float_lt_neq.
Qed.

(** C1 fails on the code: with three stations, class 1 has the single edge
    from A to B, and its matrix has the two nodes of that edge only, while
    class 2, which has no edge, gets the full matrix over three nodes. *)
Theorem transition_matrix_dimension_three_stations :
  ∃ p m1 m2,
    build_params decimal_float [station_A; station_B; station_C] = Ok p
    ∧ Number_of_nodes p = 3%nat
    ∧ dict_get (Transition_matrices p) "Class 1" = Some m1
    ∧ m1 = [[0; 0.8]; [0; 0]]%float
    ∧ length m1 = 2%nat
    ∧ dict_get (Transition_matrices p) "Class 2" = Some m2
    ∧ m2 = [[0; 0; 0]; [0; 0; 0]; [0; 0; 0]]%float.
Proof.
  eexists _, _, _. split_and!.
  - vm_compute. reflexivity.
  - reflexivity.
  - reflexivity.
  - reflexivity.
  - reflexivity.
  - reflexivity.
  - reflexivity.
Qed.

(** ** The scenario of the specification *)

Example build_params_two_stations :
  build_params decimal_float [station_A; station_B]
  = Ok {| Arrival_distributions :=
            [("Class 1", [Dist "Exponential" [2%float]; NoArrivals])];
          Number_of_nodes := 2;
          Number_of_servers := [1%Z; 2%Z];
          Queue_capacities := [CapInt 10; CapInt 5];
          Service_distributions :=
            [("Class 1",
              [Dist "Exponential" [5%float]; Dist "Deterministic" [1%float]])];
          Transition_matrices :=
            [("Class 1", [[0; 0.8]; [0; 0]]%float)] |}.
Proof. vm_compute. reflexivity. Qed.

(** * Further properties *)

(** ** Splitting at spaces *)

Lemma join_space_cons (seg : string) (segments : list string) :
  segments ≠ [] →
  join_space (seg :: segments)
  = seg +:+ String " "%char (join_space segments).
Proof. by destruct segments. Qed.

Lemma join_space_push (c : ascii) (seg : string) (segments : list string) :
  join_space (String c seg :: segments)
  = String c (join_space (seg :: segments)).
Proof. by destruct segments. Qed.

Lemma split_space_segments (s : string) :
  Forall (λ seg, has_space seg = false) (split_space s).
Proof.
  induction s as [|c s IH]; simpl.
  - by repeat constructor.
  - destruct (Ascii.eqb c " ") eqn:Hc; [by constructor|].
    pose proof (split_space_nonempty s) as Hne.
    destruct (split_space s) as [|seg segs]; [done|].
    apply Forall_cons in IH as [Hseg Hsegs].
    constructor; [|done]. simpl. by rewrite Hc.
Qed.

(** X1: Splitting a string at its spaces and joining the segments with spaces
    gives the string back; the segments hold no space, so that the name and
    every argument that [parse_distribution] reads are free of spaces. *)
Theorem split_space_join (s : string) :
  join_space (split_space s) = s
  ∧ Forall (λ seg, has_space seg = false) (split_space s).
Proof.
  split; [|apply split_space_segments].
  induction s as [|c s IH]; simpl; [done|].
  destruct (Ascii.eqb c " ") eqn:Hc.
  - apply Ascii.eqb_eq in Hc as ->.
    rewrite join_space_cons by apply split_space_nonempty.
    simpl. by rewrite IH.
  - pose proof (split_space_nonempty s) as Hne.
    destruct (split_space s) as [|seg segs]; [done|].
    rewrite join_space_push. by rewrite IH.
Qed.

Lemma split_space_no_space (seg : string) :
  has_space seg = false → split_space seg = [seg].
Proof.
  induction seg as [|c seg IH]; simpl; [done|].
  intros [Hc Hseg]%orb_false_iff. rewrite Hc. by rewrite IH.
Qed.

Lemma split_space_app_space (seg rest : string) :
  has_space seg = false →
  split_space (seg +:+ String " "%char rest) = seg :: split_space rest.
Proof.
  induction seg as [|c seg IH]; simpl; [done|].
  intros [Hc Hseg]%orb_false_iff. rewrite Hc. by rewrite IH.
Qed.

(** Conversely, segments without spaces are recovered from their join. *)
Lemma join_space_split (segments : list string) :
  segments ≠ [] →
  Forall (λ seg, has_space seg = false) segments →
  split_space (join_space segments) = segments.
Proof.
  intros Hne Hall. induction Hall as [|seg segs Hseg Hsegs IH]; [done|].
  clear Hne. destruct segs as [|seg' segs].
  - by apply split_space_no_space.
  - rewrite join_space_cons by done.
    rewrite split_space_app_space by done. by rewrite IH.
Qed.

(** ** Comprehensions that can raise *)

Lemma mapM_result_Ok {A B : Type} (f : A → result B) (l : list A)
  (l' : list B) :
  mapM_result f l = Ok l' ↔ Forall2 (λ x y, f x = Ok y) l l'.
Proof.
  revert l'. induction l as [|x l IH]; intros l'; simpl.
  - split; [intros [= <-]; constructor | by intros ->%Forall2_nil_inv_l].
  - split.
    + intros Hl. apply bind_Ok in Hl as (y & Hy & Hl).
      apply bind_Ok in Hl as (ys & Hys & [= <-]).
      constructor; [done | by apply IH].
    + intros (y & ys & Hy & Hys & ->)%Forall2_cons_inv_l.
      rewrite Hy. simpl. apply IH in Hys. by rewrite Hys.
Qed.

Lemma mapM_result_first_failure {A B : Type} (f : A → result B)
  (pre post : list A) (x : A) (e : error) :
  Forall (λ a, is_ok (f a) = true) pre → f x = Raise e →
  mapM_result f (pre ++ x :: post) = Raise e.
Proof.
  intros Hpre Hx. induction Hpre as [|a pre Ha _ IH]; simpl.
  - by rewrite Hx.
  - destruct (f a); [|discriminate]. simpl. by rewrite IH.
Qed.

Lemma mapM_result_Raise_inv {A B : Type} (f : A → result B) (l : list A)
  (e : error) :
  mapM_result f l = Raise e →
  ∃ pre x post,
    l = pre ++ x :: post ∧ Forall (λ a, is_ok (f a) = true) pre
    ∧ f x = Raise e.
Proof.
  induction l as [|x l IH]; simpl; [discriminate|].
  destruct (f x) as [y|e'] eqn:Hx; simpl.
  - destruct (mapM_result f l) as [ys|e'']; simpl; [discriminate|].
    intros [= ->]. destruct (IH eq_refl) as (pre & z & post & -> & Hpre & Hz).
    exists (x :: pre), z, post. split_and!; [done| |done].
    constructor; [by rewrite Hx | done].
  - intros [= ->]. exists [], x, l. split_and!; [done | constructor | done].
Qed.

(** The error of a comprehension is that of the first element that
    raises. *)
Lemma mapM_result_Raise {A B : Type} (f : A → result B) (l : list A)
  (e : error) :
  mapM_result f l = Raise e
  ↔ ∃ pre x post,
      l = pre ++ x :: post ∧ Forall (λ a, is_ok (f a) = true) pre
      ∧ f x = Raise e.
Proof.
  split; [apply mapM_result_Raise_inv|].
  intros (pre & x & post & -> & Hpre & Hx).
  by apply mapM_result_first_failure.
Qed.

(** ** The descriptors of the distribution parser *)

Lemma distributions_arity (dist : string) (n : nat) :
  dict_get distributions dist = Some n →
  has_space dist = false
  ∧ (dist = "NoArrivals" ∧ n = 0%nat ∨ dist ≠ "NoArrivals" ∧ 1 ≤ n ≤ 3).
Proof.
  unfold distributions. simpl.
  repeat (case_decide;
          [subst dist; intros [= <-]; split;
             [reflexivity | first [left; split; reflexivity
                                  | right; split; [by intros [=] | lia]]]|]).
  intros [=].
Qed.

Section parse_distribution_more.
Variable py_float : string → option float.

Lemma float_arg_Ok (a : string) (x : float) :
  float_arg py_float a = Ok x ↔ py_float a = Some x.
Proof.
  unfold float_arg. destruct (py_float a); split; congruence.
Qed.

Lemma float_arg_Raise (a : string) (e : error) :
  float_arg py_float a = Raise e ↔ py_float a = None ∧ e = FloatValueError a.
Proof.
  unfold float_arg. destruct (py_float a); split.
  - discriminate.
  - intros [? _]. discriminate.
  - by intros [= <-].
  - by intros [_ ->].
Qed.

(** The value of [parse_distribution] when it returns. *)
Lemma parse_distribution_Ok (s : string) (d : descriptor) :
  parse_distribution py_float s = Ok d
  ↔ ∃ n args,
      dict_get distributions (hd EmptyString (split_space s)) = Some n
      ∧ length (tl (split_space s)) = n
      ∧ Forall2 (λ a x, py_float a = Some x) (tl (split_space s)) args
      ∧ d = if bool_decide (hd EmptyString (split_space s) = "NoArrivals")
            then NoArrivals
            else Dist (hd EmptyString (split_space s)) args.
Proof.
  unfold parse_distribution.
  destruct (dict_get distributions _) as [n|]; [|split; [discriminate|]].
  - case_bool_decide as Hlen.
    + split; [discriminate|]. intros (n' & args & [= <-] & ? & _). done.
    + assert (length (tl (split_space s)) = n) as Hlen'.
      { destruct (decide (length (tl (split_space s)) = n)); done. }
      split.
      * intros Hd. apply bind_Ok in Hd as (args & Hargs & Hd).
        exists n, args. split_and!; [done..| |].
        -- apply mapM_result_Ok in Hargs.
           eapply Forall2_impl; [exact Hargs|].
           intros a x. apply float_arg_Ok.
        -- case_bool_decide; congruence.
      * intros (n' & args & _ & _ & Hargs & ->).
        assert (mapM_result (float_arg py_float) (tl (split_space s))
                = Ok args) as ->.
        { apply mapM_result_Ok. eapply Forall2_impl; [exact Hargs|].
          intros a x. apply float_arg_Ok. }
        simpl. by case_bool_decide.
  - intros (n' & args & Hn & _). discriminate.
Qed.

(** X2: A descriptor with arguments has a registered name other than
    [NoArrivals], as many arguments as the registry asks for that name,
    between one and three, and each argument is the value of the token at
    its place. *)
Theorem parse_distribution_arity (s : string) (dist : string)
  (args : list float) :
  parse_distribution py_float s = Ok (Dist dist args) →
  dist = hd EmptyString (split_space s)
  ∧ dict_get distributions dist = Some (length args)
  ∧ dist ≠ "NoArrivals"
  ∧ 1 ≤ length args ≤ 3
  ∧ Forall2 (λ a x, py_float a = Some x) (tl (split_space s)) args.
Proof.
  intros (n & args' & Hn & Hlen & Hargs & Hd)%parse_distribution_Ok.
  case_bool_decide as Hname; [discriminate|]. injection Hd as -> ->.
  apply Forall2_length in Hargs as Hlen'. rewrite Hlen in Hlen'. subst n.
  rewrite Hlen' in Hn.
  destruct (distributions_arity _ _ Hn) as [_ [[? _]|[_ ?]]]; [done|].
  split_and!; [done..|lia|lia|done].
Qed.

(** X3: The errors of [parse_distribution]: an unregistered first segment, a
    number of further segments other than the registered one, or the first
    token that [float] rejects, tested in this order; it raises nothing
    else. *)
Theorem parse_distribution_errors (s : string) (e : error) :
  parse_distribution py_float s = Raise e
  ↔ let dist := hd EmptyString (split_space s) in
    let args := tl (split_space s) in
    (dict_get distributions dist = None ∧ e = UnsupportedDistribution dist)
    ∨ (∃ n, dict_get distributions dist = Some n ∧ length args ≠ n
            ∧ e = ArgumentCount dist n (length args))
    ∨ (∃ pre token post,
         dict_get distributions dist = Some (length args)
         ∧ args = pre ++ token :: post
         ∧ Forall (λ a, is_Some (py_float a)) pre
         ∧ py_float token = None
         ∧ e = FloatValueError token).
Proof.
  unfold parse_distribution. cbv zeta.
  generalize (hd EmptyString (split_space s)) as dist.
  generalize (tl (split_space s)) as args. intros args dist.
  destruct (dict_get distributions dist) as [n|].
  - case_bool_decide as Hlen.
    + split.
      * intros [= <-]. right. left. by exists n.
      * intros [[? _]|[(n' & [= <-] & _ & ->)|(? & ? & ? & [= Hn] & _)]];
          [done | done | by symmetry in Hn].
    + assert (length args = n) as Hlen'.
      { destruct (decide (length args = n)); done. }
      split.
      * intros He. right. right.
        destruct (mapM_result (float_arg py_float) args)
          as [fargs|e'] eqn:Hargs; simpl in He.
        { by case_bool_decide. }
        injection He as ->.
        apply mapM_result_Raise in Hargs
          as (pre & a & post & Ha & Hpre & Hraise).
        apply float_arg_Raise in Hraise as [Hnone ->].
        exists pre, a, post. split_and!; [by rewrite Hlen' | done | | done..].
        eapply Forall_impl; [exact Hpre|]. intros x Hx. simpl in Hx.
        unfold float_arg in Hx. by destruct (py_float x).
      * intros [[? _]|[(n' & [= <-] & ? & _)|
                       (pre & a & post & _ & Ha & Hpre & Hnone & ->)]];
          try done.
        assert (mapM_result (float_arg py_float) args
                = Raise (FloatValueError a)) as ->; [|done].
        apply mapM_result_Raise. exists pre, a, post. split_and!; [done| |].
        -- eapply Forall_impl; [exact Hpre|]. intros x [y Hy]. simpl.
           unfold float_arg. by rewrite Hy.
        -- apply float_arg_Raise. done.
  - split.
    + intros [= <-]. by left.
    + intros [[_ ->]|[(n' & ? & _)|(? & ? & ? & ? & _)]]; done.
Qed.

(** X4: Every well-formed specification parses: a registered name other than
    [NoArrivals], followed, each after one space, by as many tokens as the
    registry asks, free of spaces and each accepted by [float]. *)
Theorem parse_distribution_well_formed (dist : string) (tokens : list string)
  (args : list float) :
  dict_get distributions dist = Some (length tokens) →
  dist ≠ "NoArrivals" →
  Forall (λ token, has_space token = false) tokens →
  Forall2 (λ a x, py_float a = Some x) tokens args →
  parse_distribution py_float (join_space (dist :: tokens))
  = Ok (Dist dist args).
Proof.
  intros Hreg Hname Htokens Hargs. apply parse_distribution_Ok.
  rewrite join_space_split; [|done|].
  - simpl. exists (length tokens), args. split_and!; [done..|].
    by rewrite bool_decide_eq_false_2.
  - constructor; [|done]. by destruct (distributions_arity _ _ Hreg).
Qed.

End parse_distribution_more.

Lemma parse_distribution_arity_witness :
  dict_get distributions "Uniform" = Some 2%nat
  ∧ Forall2 (λ a x, decimal_float a = Some x) ["1"; "2.5"]
      [1%float; 2.5%float].
Proof.
  destruct (parse_distribution_arity decimal_float "Uniform 1 2.5" "Uniform"
              [1%float; 2.5%float]) as (_ & Hreg & _ & _ & Hargs).
  - reflexivity.
  - split; [exact Hreg | exact Hargs].
Defined.

Lemma parse_distribution_errors_witness :
  parse_distribution decimal_float "Uniform 1 x 3"
  = Raise (ArgumentCount "Uniform" 2 3)
  ∧ parse_distribution decimal_float "Uniform 1 x"
    = Raise (FloatValueError "x").
Proof.
  split.
  - apply (parse_distribution_errors decimal_float "Uniform 1 x 3").
    right. left. exists 2%nat. split_and!; [reflexivity | by intros [=] | reflexivity].
  - apply (parse_distribution_errors decimal_float "Uniform 1 x").
    right. right. exists ["1"], "x", []. split_and!; try reflexivity.
    repeat constructor. by exists 1%float.
Defined.

Lemma parse_distribution_well_formed_witness :
  parse_distribution decimal_float "Uniform 1 2.5"
  = Ok (Dist "Uniform" [1%float; 2.5%float]).
Proof.
  apply (parse_distribution_well_formed decimal_float "Uniform" ["1"; "2.5"]
           [1%float; 2.5%float]).
  - reflexivity.
  - by intros [=].
  - repeat constructor.
  - repeat constructor.
Defined.

(** ** Probabilities that are not numbers *)

Lemma SFcompare_refl_nan (a : spec_float) :
  SFcompare a a ≠ Some Eq → a = S754_nan.
Proof.
  destruct a as [s|s| |s m e]; simpl; try done.
  - by destruct s.
  - destruct s; rewrite Z.compare_refl;
      change (PosDef.Pos.compare_cont Eq m m) with (Pos.compare m m);
      rewrite Pos.compare_refl; done.
Qed.

Lemma is_nan_Prim2SF (x : float) :
  PrimFloat.is_nan x = true → Prim2SF x = S754_nan.
Proof.
  unfold PrimFloat.is_nan. rewrite FloatAxioms.eqb_spec. unfold SFeqb.
  intros Hnan. apply SFcompare_refl_nan. intros Heq.
  rewrite Heq in Hnan. discriminate.
Qed.

Lemma add_nan_l (x y : float) :
  Prim2SF x = S754_nan → Prim2SF (PrimFloat.add x y) = S754_nan.
Proof. intros Hx. rewrite FloatAxioms.add_spec, Hx. reflexivity. Qed.

Lemma add_nan_r (x y : float) :
  Prim2SF y = S754_nan → Prim2SF (PrimFloat.add x y) = S754_nan.
Proof.
  intros Hy. rewrite FloatAxioms.add_spec, Hy. by destruct (Prim2SF x).
Qed.

Lemma ltb_nan_r (x y : float) :
  Prim2SF y = S754_nan → PrimFloat.ltb x y = false.
Proof.
  intros Hy. rewrite ltb_spec, Hy. unfold SFltb. by destruct (Prim2SF x).
Qed.

Lemma total_prob_from_nan (connections : list connection) (total : float) :
  Prim2SF total = S754_nan →
  Prim2SF (fold_left (λ total c, PrimFloat.add total (conn_prob c))
             connections total) = S754_nan.
Proof.
  revert total. induction connections as [|c cs IH]; intros total Ht; simpl.
  - done.
  - apply IH. by apply add_nan_l.
Qed.

Lemma total_prob_nan (connections : list connection) (c : connection) :
  c ∈ connections → PrimFloat.is_nan (conn_prob c) = true →
  Prim2SF (total_prob connections) = S754_nan.
Proof.
  intros Hin Hnan%is_nan_Prim2SF. unfold total_prob.
  generalize 0%float as total.
  induction connections as [|c' cs IH]; intros total;
    [by apply elem_of_nil in Hin|].
  simpl. apply elem_of_cons in Hin as [<-|Hin].
  - apply total_prob_from_nan. by apply add_nan_r.
  - by apply IH.
Qed.

(** X5: A list of routing targets one of whose probabilities is a NaN is never
    rejected: the sum is a NaN, which is not above 1.0, whatever the other
    probabilities are. *)
Theorem parse_connections_nan_accepted (connections : list connection)
  (c : connection) (current_name : string) :
  c ∈ connections → PrimFloat.is_nan (conn_prob c) = true →
  parse_connections connections current_name
  = Ok (map (edge_of current_name) connections).
Proof.
  intros Hin Hnan. rewrite parse_connections_eq.
  by rewrite (ltb_nan_r _ _ (total_prob_nan _ _ Hin Hnan)).
Qed.

Lemma parse_connections_nan_accepted_witness :
  parse_connections [route "B" 5; route "C" PrimFloat.nan] "A"
  = Ok [("A", "B", 5%float); ("A", "C", PrimFloat.nan)].
Proof.
  apply (parse_connections_nan_accepted
           [route "B" 5; route "C" PrimFloat.nan] (route "C" PrimFloat.nan) "A").
  - apply elem_of_cons. right. apply list_elem_of_singleton. reflexivity.
  - reflexivity.
Defined.

(** ** The mappings of one station *)

Section dict_zip_more.
Context {K : Type} `{EqDecision K} {V : Type}.

Lemma dict_keys_assign (kvs : list (K * V)) (d : dict K V) :
  dict_keys (fold_left (λ d kv, dict_set d kv.1 kv.2) kvs d)
  = fold_left (λ acc k, if bool_decide (k ∈ acc) then acc else acc ++ [k])
      kvs.*1 (dict_keys d).
Proof.
  revert d. induction kvs as [|[k v] kvs IH]; intros d; simpl; [done|].
  rewrite IH, dict_keys_set. f_equal.
  destruct (dict_mem k d) eqn:Hmem.
  - apply dict_mem_true in Hmem. by rewrite bool_decide_eq_true_2.
  - rewrite bool_decide_eq_false_2; [done|].
    intros Hin. apply dict_mem_true in Hin. congruence.
Qed.

Lemma dict_zip_keys (ks : list K) (vs : list V) :
  length ks = length vs → dict_keys (dict_zip ks vs) = first_occurrences ks.
Proof.
  intros Hlen. unfold dict_zip, first_occurrences.
  rewrite dict_keys_assign. by rewrite fst_zip by lia.
Qed.

(** A value read from [dict(zip(ks, vs))] stands in [vs] at the place of
    the last occurrence of its key. *)
Lemma dict_zip_get_Some (ks : list K) (vs : list V) (k : K) (v : V) :
  length ks = length vs → dict_get (dict_zip ks vs) k = Some v →
  ∃ ks1 ks2 vs1 vs2,
    ks = ks1 ++ k :: ks2 ∧ vs = vs1 ++ v :: vs2
    ∧ length ks1 = length vs1 ∧ k ∉ ks2.
Proof.
  intros Hlen Hget.
  assert (k ∈ ks) as Hin.
  { apply (dict_zip_keys_elem ks vs k Hlen). by eapply dict_get_Some_keys. }
  apply list_elem_of_split_r in Hin as (ks1 & ks2 & -> & Hlast).
  assert (length ks1 < length vs) as Hlt.
  { rewrite <- Hlen, length_app. simpl. lia. }
  destruct (lookup_lt_is_Some_2 vs (length ks1) Hlt) as [v' Hv'].
  exists ks1, ks2, (take (length ks1) vs), (drop (S (length ks1)) vs).
  assert (vs = take (length ks1) vs ++ v' :: drop (S (length ks1)) vs)
    as Hvs by (by rewrite take_drop_middle).
  assert (length ks1 = length (take (length ks1) vs)) as Hlen1.
  { rewrite length_take. lia. }
  rewrite Hvs in Hget.
  rewrite dict_zip_get_last in Hget by done.
  injection Hget as ->. done.
Qed.

End dict_zip_more.

Lemma parse_routing_Ok (current_name : string) (c : customer)
  (es : list edge) :
  parse_routing current_name c = Ok es
  ↔ PrimFloat.ltb 1%float (total_prob (routes_of c)) = false
    ∧ es = map (edge_of current_name) (routes_of c).
Proof.
  unfold parse_routing, routes_of.
  destruct (cust_connections c) as [cs|]; simpl.
  - rewrite parse_connections_eq.
    destruct (PrimFloat.ltb 1 (total_prob cs)); simpl.
    + split; [discriminate | by intros [? _]].
    + split; [by intros [= <-] | by intros [_ ->]].
  - split; [by intros [= <-] | by intros [_ ->]].
Qed.

Lemma last_of_class_elem (customers : list customer) (c : customer) :
  last_of_class customers c → c ∈ customers.
Proof.
  intros (pre & post & -> & _). apply elem_of_app. right. by left.
Qed.

Section parse_customers_more.
Variable py_float : string → option float.

(** X7: The three mappings returned for a station have the same keys in the
    same order: the class keys of the entries, each at the place where its
    class occurs first. *)
Theorem parse_customers_same_keys (customers : list customer)
  (current_name : string) (r : customer_dists) :
  parse_customers py_float customers current_name = Ok r →
  let keys :=
    first_occurrences (map (λ c, class_key (cust_class c)) customers) in
  dict_keys (cd_arrival r) = keys
  ∧ dict_keys (cd_service r) = keys
  ∧ dict_keys (cd_connections r) = keys
  ∧ NoDup keys
  ∧ ∀ n, class_key n ∈ keys ↔ n ∈ map cust_class customers.
Proof.
  intros Hr keys. pose proof Hr as Hr'.
  apply parse_customers_Ok in Hr' as (servs & conns & Hss & Hcs & Ha & Hs & Hc).
  apply Forall2_length in Hss, Hcs. simpl in Ha, Hs, Hc.
  assert (dict_keys (cd_arrival r) = keys) as Hka.
  { rewrite Ha. apply dict_zip_keys. by rewrite !length_map. }
  split_and!; [done | | | |].
  - rewrite Hs. apply dict_zip_keys. by rewrite length_map.
  - rewrite Hc. apply dict_zip_keys. by rewrite length_map.
  - rewrite <- Hka, Ha. apply dict_zip_NoDup.
  - intros n. rewrite <- Hka, <- dict_mem_true.
    by destruct (parse_customers_keys py_float _ _ _ n Hr) as [-> _].
Qed.

Lemma parse_customers_edges_inv (customers : list customer)
  (current_name key : string) (r : customer_dists) (es : list edge) :
  parse_customers py_float customers current_name = Ok r →
  dict_get (cd_connections r) key = Some es →
  ∃ c,
    last_of_class customers c
    ∧ key = class_key (cust_class c)
    ∧ es = map (edge_of current_name) (routes_of c)
    ∧ PrimFloat.ltb 1%float (total_prob (routes_of c)) = false
    ∧ Forall (λ e, e.1.1 = current_name) es.
Proof.
  intros Hr Hget.
  apply parse_customers_Ok in Hr as (servs & conns & Hss & Hcs & _ & _ & Hc).
  simpl in Hc. rewrite Hc in Hget.
  apply dict_zip_get_Some in Hget
    as (ks1 & ks2 & vs1 & vs2 & Hks & -> & Hlen & Hlast);
    [|rewrite length_map; by apply Forall2_length in Hcs].
  apply fmap_app_inv in Hks as (pre & rest & -> & Hrest & ->).
  symmetry in Hrest.
  apply fmap_cons_inv in Hrest as (c & post & -> & -> & ->).
  rewrite length_map in Hlen.
  apply Forall2_app_inv in Hcs as [_ Hcs]; [|done].
  apply Forall2_cons_1 in Hcs as [Hroute _].
  apply parse_routing_Ok in Hroute as [Hsum ->].
  exists c. split_and!; [|done..|].
  - exists pre, post. split; [done|]. intros Hin. apply Hlast.
    apply list_elem_of_fmap in Hin as (c' & Hcls & Hin).
    apply list_elem_of_fmap. exists c'. split; [by rewrite Hcls | done].
  - apply Forall_fmap, Forall_forall. by intros conn _.
Qed.

(** X8: The edge lists kept for a station are those of the entries that are
    the last of their class: one edge per routing target of the entry, in
    order, each leaving the station, and the sum of those targets passed
    the test of [parse_connections]. *)
Theorem parse_customers_edges (customers : list customer)
  (current_name : string) (r : customer_dists) :
  parse_customers py_float customers current_name = Ok r →
  (∀ c, last_of_class customers c →
        dict_get (cd_connections r) (class_key (cust_class c))
        = Some (map (edge_of current_name) (routes_of c)))
  ∧ (∀ key es,
       dict_get (cd_connections r) key = Some es →
       ∃ c,
         last_of_class customers c
         ∧ key = class_key (cust_class c)
         ∧ es = map (edge_of current_name) (routes_of c)
         ∧ PrimFloat.ltb 1%float (total_prob (routes_of c)) = false
         ∧ Forall (λ e, e.1.1 = current_name) es).
Proof.
  intros Hr. split.
  - intros c (pre & post & -> & Hlast).
    apply parse_customers_last in Hr as (_ & _ & (es & Hes & Hget)); [|done].
    apply parse_routing_Ok in Hes as [_ ->]. done.
  - intros key es. by apply parse_customers_edges_inv.
Qed.

End parse_customers_more.

Lemma parse_customers_same_keys_witness :
  ∃ r,
    parse_customers decimal_float
      [customer_of 2 None "Deterministic 1.0" None;
       customer_of 1 None "Deterministic 1.0" None;
       customer_of 2 None "Exponential 5.0" None] "A" = Ok r
    ∧ dict_keys (cd_arrival r) = ["Class 2"; "Class 1"]
    ∧ dict_keys (cd_service r) = ["Class 2"; "Class 1"]
    ∧ dict_keys (cd_connections r) = ["Class 2"; "Class 1"].
Proof.
  destruct (parse_customers decimal_float
              [customer_of 2 None "Deterministic 1.0" None;
               customer_of 1 None "Deterministic 1.0" None;
               customer_of 2 None "Exponential 5.0" None] "A")
    as [r|e] eqn:Hr; [|vm_compute in Hr; discriminate].
  destruct (parse_customers_same_keys decimal_float _ _ _ Hr)
    as (Ha & Hs & Hc & _).
  exists r. split_and!; [done | exact Ha | exact Hs | exact Hc].
Defined.

Lemma parse_customers_edges_witness :
  ∃ r c,
    parse_customers decimal_float (st_customers station_A_twice) "A" = Ok r
    ∧ last_of_class (st_customers station_A_twice) c
    ∧ dict_get (cd_connections r) "Class 1"
      = Some (map (edge_of "A") (routes_of c)).
Proof.
  destruct (parse_customers decimal_float (st_customers station_A_twice) "A")
    as [r|e] eqn:Hr; [|vm_compute in Hr; discriminate].
  destruct (dict_get (cd_connections r) "Class 1") as [es|] eqn:Hes;
    [|vm_compute in Hr; injection Hr as <-; vm_compute in Hes; discriminate].
  destruct (parse_customers_edges decimal_float _ _ _ Hr) as [_ Hinv].
  destruct (Hinv _ _ Hes) as (c & Hlast & _ & -> & _).
  exists r, c. done.
Defined.

(** ** Connection aggregator *)

Lemma add_connections_eq (existing : dict string (list edge)) (key : string)
  (es : list edge) :
  dict_get (add_connections existing (key, es)) key
  = merged_edges (dict_get existing key) (Some es).
Proof.
  unfold add_connections.
  destruct (dict_get existing key); simpl; apply dict_get_set_eq.
Qed.

Lemma add_connections_ne (existing : dict string (list edge))
  (key key' : string) (es : list edge) :
  key ≠ key' →
  dict_get (add_connections existing (key, es)) key' = dict_get existing key'.
Proof.
  intros Hne. unfold add_connections.
  destruct (dict_get existing key); by apply dict_get_set_ne.
Qed.

Lemma add_connections_keys (existing : dict string (list edge))
  (item : string * list edge) :
  NoDup (dict_keys existing) →
  NoDup (dict_keys (add_connections existing item)).
Proof.
  intros Hnd. destruct item as [key es]. unfold add_connections.
  destruct (dict_get existing key); by apply dict_keys_set_NoDup.
Qed.

Lemma update_connections_NoDup (existing new : dict string (list edge)) :
  NoDup (dict_keys existing) →
  NoDup (dict_keys (update_connections existing new)).
Proof.
  unfold update_connections. revert existing.
  induction new as [|item new IH]; intros existing Hnd; simpl; [done|].
  apply IH. by apply add_connections_keys.
Qed.

Lemma update_connections_get_eq (existing new : dict string (list edge))
  (key : string) :
  NoDup (dict_keys new) →
  dict_get (update_connections existing new) key
  = merged_edges (dict_get existing key) (dict_get new key).
Proof.
  unfold update_connections. revert existing.
  induction new as [|[k es] new IH]; intros existing Hnd.
  - simpl. by destruct (dict_get existing key).
  - unfold dict_keys in Hnd. simpl in Hnd. apply NoDup_cons in Hnd as [Hk Hnd].
    cbn [fold_left]. rewrite IH by done.
    change (dict_get ((k, es) :: new) key)
      with (if decide (key = k) then Some es else dict_get new key).
    destruct (decide (key = k)) as [->|Hne].
    + apply dict_get_None in Hk. rewrite Hk, add_connections_eq.
      by destruct (dict_get existing k).
    + by rewrite add_connections_ne.
Qed.

(** X10: [update_connections] merges key by key: the edges of the new station
    are put after those the running mapping has for the key, a key of one
    side only keeps its list, no key is lost or invented, and the keys stay
    distinct. *)
Theorem update_connections_get (existing new : dict string (list edge))
  (key : string) :
  NoDup (dict_keys new) →
  dict_get (update_connections existing new) key
  = merged_edges (dict_get existing key) (dict_get new key)
  ∧ (NoDup (dict_keys existing) →
     NoDup (dict_keys (update_connections existing new))).
Proof.
  intros Hnd. split; [by apply update_connections_get_eq|].
  apply update_connections_NoDup.
Qed.

Lemma update_connections_get_witness :
  dict_get
    (update_connections [("Class 1", [("A", "B", 0.5%float)])]
       [("Class 1", [("B", "A", 1%float)]); ("Class 2", [])]) "Class 1"
  = Some [("A", "B", 0.5%float); ("B", "A", 1%float)].
Proof.
  destruct (update_connections_get [("Class 1", [("A", "B", 0.5%float)])]
              [("Class 1", [("B", "A", 1%float)]); ("Class 2", [])] "Class 1")
    as [Hget _].
  - apply NoDup_cons. split; [|apply NoDup_singleton].
    intros Hin. apply list_elem_of_singleton in Hin. discriminate.
  - rewrite Hget. reflexivity.
Defined.

(** ** Distribution aggregator, without its precondition *)

(** X9: Whatever the lengths of the running sequences are, a call of
    [update_distributions] only appends: each sequence it had is a prefix
    of the one returned for the key, longer by at most two entries, and
    the keys returned are those of the running mapping and of the new
    station. *)
Theorem update_distributions_appends
  (existing : dict string (list descriptor)) (new : dict string descriptor)
  (current_node : Z) (key : string) :
  NoDup (dict_keys new) →
  (dict_get (update_distributions existing new current_node) key = None
   ↔ dict_get existing key = None ∧ dict_get new key = None)
  ∧ ∀ l, dict_get existing key = Some l →
         ∃ suffix,
           dict_get (update_distributions existing new current_node) key
           = Some (l ++ suffix)
           ∧ length suffix ≤ 2.
Proof.
  intros Hnd. rewrite update_distributions_get by done.
  unfold pad_distribution. split.
  - destruct (dict_get new key), (dict_get existing key); simpl;
      split; try done; intros [? ?]; done.
  - intros l ->. destruct (dict_get new key) as [v|]; simpl.
    + case_bool_decide.
      * exists [v; NoArrivals]. by rewrite <- app_assoc.
      * exists [v]. split; [done | simpl; lia].
    + case_bool_decide.
      * exists [NoArrivals]. split; [done | simpl; lia].
      * exists []. rewrite app_nil_r. split; [done | simpl; lia].
Qed.

Lemma update_distributions_appends_witness :
  ∃ suffix,
    dict_get
      (update_distributions [("Class 1", [NoArrivals])]
         [("Class 1", Dist "Exponential" [2%float])] 7) "Class 1"
    = Some ([NoArrivals] ++ suffix)
    ∧ length suffix ≤ 2.
Proof.
  destruct (update_distributions_appends [("Class 1", [NoArrivals])]
              [("Class 1", Dist "Exponential" [2%float])] 7 "Class 1")
    as [_ Happ].
  - apply NoDup_singleton.
  - apply (Happ [NoArrivals]). reflexivity.
Defined.

(** ** The loop over the stations, continued *)

Lemma edge_column_unseen (ds : list (dict string (list edge)))
  (key : string) :
  seen_edges ds key = false → concat (edge_column ds key) = [].
Proof.
  induction ds as [|d ds IH]; simpl; [done|].
  intros [Hd Hds]%orb_false_iff. rewrite IH by done.
  unfold dict_mem in Hd. by destruct (dict_get d key).
Qed.

Lemma aggregated_edges_step (ds : list (dict string (list edge)))
  (existing new : dict string (list edge)) :
  NoDup (dict_keys new) →
  (∀ key, dict_get existing key = aggregated_edges ds key) →
  ∀ key, dict_get (update_connections existing new) key
         = aggregated_edges (ds ++ [new]) key.
Proof.
  intros Hnd Hagg key. rewrite update_connections_get_eq.
  - rewrite Hagg. unfold aggregated_edges.
    replace (seen_edges (ds ++ [new]) key)
      with (seen_edges ds key || dict_mem key new)
      by (unfold seen_edges; rewrite existsb_app; simpl;
          by rewrite orb_false_r).
    replace (concat (edge_column (ds ++ [new]) key))
      with (concat (edge_column ds key) ++ default [] (dict_get new key))
      by (unfold edge_column; rewrite map_app, concat_app; simpl;
          by rewrite app_nil_r).
    unfold dict_mem.
    destruct (seen_edges ds key) eqn:Hseen, (dict_get new key) as [es|];
      simpl; try reflexivity.
    + by rewrite app_nil_r.
    + by rewrite (edge_column_unseen ds key Hseen).
  - done.
Qed.

Section build_loop_more.
Variable py_float : string → option float.

Lemma build_inv_more_initial : build_inv_more [] initial_state.
Proof.
  unfold build_inv_more. simpl. split_and!; try done; apply NoDup_nil_2.
Qed.

Lemma parse_station_connections_NoDup (station : station) (nd : node) :
  parse_station py_float station = Ok nd →
  NoDup (dict_keys (node_connections nd)).
Proof.
  intros (r & Hr & _ & _ & _ & ->)%parse_station_Ok.
  apply parse_customers_Ok in Hr as (servs & conns & _ & _ & _ & _ & ->).
  apply dict_zip_NoDup.
Qed.

Lemma build_step_inv_more (done : list node) (s s' : build_state)
  (station : station) (nd : node) :
  build_inv done s → build_inv_more done s →
  build_step py_float s station = Ok s' →
  parse_station py_float station = Ok nd →
  build_inv_more (done ++ [nd]) s'.
Proof.
  intros (Hcur & Hmem & _) (Hnd & Hnames & Hsrv & Hcap & Hkeys & Hconn)
    Hstep Hparse.
  unfold build_step in Hstep. rewrite Hparse in Hstep. simpl in Hstep.
  destruct (dict_mem (node_name nd) (bs_names_to_nodes s)) eqn:Hdup;
    [discriminate|].
  injection Hstep as <-.
  assert (node_name nd ∉ map node_name done) as Hfresh.
  { rewrite <- Hmem. congruence. }
  unfold build_inv_more. simpl. rewrite !map_app. simpl.
  split_and!.
  - apply NoDup_app. split_and!; [done | | apply NoDup_singleton].
    by intros x Hx ->%list_elem_of_singleton.
  - intros i nd' Hi. apply lookup_app_Some in Hi as [Hi|[Hlen Hi]].
    + rewrite dict_get_set_ne; [by apply Hnames|].
      intros Heq. apply Hfresh. rewrite Heq.
      apply list_elem_of_fmap. exists nd'. split; [done|].
      by eapply list_elem_of_lookup_2.
    + apply list_lookup_singleton_Some in Hi as [Hi <-].
      rewrite dict_get_set_eq. f_equal. lia.
  - by rewrite Hsrv.
  - by rewrite Hcap.
  - by apply update_connections_NoDup.
  - apply aggregated_edges_step; [|done].
    by eapply parse_station_connections_NoDup.
Qed.

Lemma build_loop_inv_more (stations : list station) (done : list node)
  (s s' : build_state) :
  build_inv done s → build_inv_more done s →
  foldM_result (build_step py_float) s stations = Ok s' →
  ∃ nodes,
    Forall2 (λ st nd, parse_station py_float st = Ok nd) stations nodes
    ∧ build_inv (done ++ nodes) s' ∧ build_inv_more (done ++ nodes) s'.
Proof.
  revert done s. induction stations as [|st stations IH];
    intros done s Hinv Hmore.
  - simpl. intros [= <-]. exists []. rewrite app_nil_r.
    split_and!; [constructor | done..].
  - simpl. intros Hloop. apply bind_Ok in Hloop as (s1 & Hstep & Hloop).
    destruct (build_step_inv py_float _ _ _ _ Hinv Hstep)
      as (nd & Hnd & _ & Hinv1).
    pose proof (build_step_inv_more _ _ _ _ _ Hinv Hmore Hstep Hnd) as Hmore1.
    destruct (IH _ _ Hinv1 Hmore1 Hloop) as (nodes & Hnodes & Hinv' & Hmore').
    exists (nd :: nodes). rewrite <- app_assoc in Hinv', Hmore'.
    split_and!; [by constructor | done..].
Qed.

(** The state at the end of a loop that went through all the stations. *)
Lemma build_loop_end (stations : list station) (s : build_state) :
  foldM_result (build_step py_float) initial_state stations = Ok s →
  ∃ nodes,
    Forall2 (λ st nd, parse_station py_float st = Ok nd) stations nodes
    ∧ build_inv nodes s ∧ build_inv_more nodes s.
Proof.
  intros Hloop.
  by apply (build_loop_inv_more _ [] _ _ build_inv_initial
              build_inv_more_initial) in Hloop.
Qed.

End build_loop_more.

(** ** The loop over the classes *)

Lemma mapM_result_is_ok {A B : Type} (f : A → result B) (l : list A) :
  is_ok (mapM_result f l) = forallb (λ x, is_ok (f x)) l.
Proof.
  induction l as [|x l IH]; simpl; [done|].
  destruct (f x); simpl; [|done]. rewrite <- IH.
  by destruct (mapM_result f l).
Qed.

Lemma number_edge_is_ok (names_to_nodes : dict string Z) (e : edge) :
  is_ok (number_edge names_to_nodes e) = edge_known names_to_nodes e.
Proof.
  destruct e as [[source target] w].
  unfold number_edge, edge_known, node_of, dict_mem. simpl.
  destruct (dict_get names_to_nodes source); simpl; [|done].
  by destruct (dict_get names_to_nodes target).
Qed.

Lemma forallb_pointwise {A : Type} (f g : A → bool) (l : list A) :
  (∀ x, f x = g x) → forallb f l = forallb g l.
Proof. intros Hfg. induction l as [|x l IH]; simpl; [done|]. by rewrite Hfg, IH. Qed.

(** The matrix of a class is built unless one of its edges names a station
    that has no number. *)
Lemma transition_matrix_is_ok (names_to_nodes : dict string Z)
  (num_nodes : nat) (c : list edge) :
  is_ok (transition_matrix names_to_nodes num_nodes c)
  = forallb (edge_known names_to_nodes) c.
Proof.
  unfold transition_matrix. case_bool_decide as Hc.
  - rewrite <- (forallb_pointwise _ _ c (number_edge_is_ok names_to_nodes)).
    rewrite <- mapM_result_is_ok.
    by destruct (mapM_result (number_edge names_to_nodes) c).
  - destruct c; [done | simpl in Hc; lia].
Qed.

Lemma build_matrices_from_is_ok (names_to_nodes : dict string Z)
  (num_nodes : nat) (connections : dict string (list edge))
  (matrices : dict string matrix) :
  is_ok
    (foldM_result
       (λ matrices '(key, c),
          let! m := transition_matrix names_to_nodes num_nodes c in
          Ok (dict_set matrices key m))
       matrices connections)
  = forallb (λ kc, forallb (edge_known names_to_nodes) kc.2) connections.
Proof.
  revert matrices.
  induction connections as [|[key c] cs IH]; intros matrices; simpl; [done|].
  rewrite <- transition_matrix_is_ok with (num_nodes := num_nodes).
  destruct (transition_matrix names_to_nodes num_nodes c); simpl; [|done].
  apply IH.
Qed.

Lemma build_matrices_is_ok (names_to_nodes : dict string Z)
  (num_nodes : nat) (connections : dict string (list edge)) :
  is_ok (build_matrices names_to_nodes num_nodes connections)
  = forallb (λ kc, forallb (edge_known names_to_nodes) kc.2) connections.
Proof. apply build_matrices_from_is_ok. Qed.

Lemma build_matrices_from_get (names_to_nodes : dict string Z)
  (num_nodes : nat) (connections : dict string (list edge))
  (matrices matrices' : dict string matrix) (key : string) :
  NoDup (dict_keys connections) →
  foldM_result
    (λ matrices '(key, c),
       let! m := transition_matrix names_to_nodes num_nodes c in
       Ok (dict_set matrices key m))
    matrices connections = Ok matrices' →
  match dict_get connections key with
  | Some c =>
      ∃ m, transition_matrix names_to_nodes num_nodes c = Ok m
           ∧ dict_get matrices' key = Some m
  | None => dict_get matrices' key = dict_get matrices key
  end.
Proof.
  revert matrices.
  induction connections as [|[k c] cs IH]; intros matrices Hnd; simpl.
  - by intros [= <-].
  - unfold dict_keys in Hnd. simpl in Hnd. apply NoDup_cons in Hnd as [Hk Hnd].
    intros Hloop. apply bind_Ok in Hloop as (ms1 & Hbody & Hloop).
    apply bind_Ok in Hbody as (m & Hm & [= <-]).
    specialize (IH _ Hnd Hloop).
    destruct (decide (key = k)) as [->|Hne].
    + apply dict_get_None in Hk. rewrite Hk in IH.
      exists m. split; [done|]. rewrite IH. apply dict_get_set_eq.
    + destruct (dict_get cs key); [done|].
      rewrite IH. by apply dict_get_set_ne.
Qed.

(** The mapping of the matrices: one matrix for each key of [connections],
    that of its edge list. *)
Lemma build_matrices_get (names_to_nodes : dict string Z) (num_nodes : nat)
  (connections : dict string (list edge)) (matrices : dict string matrix)
  (key : string) :
  NoDup (dict_keys connections) →
  build_matrices names_to_nodes num_nodes connections = Ok matrices →
  match dict_get connections key with
  | Some c =>
      ∃ m, transition_matrix names_to_nodes num_nodes c = Ok m
           ∧ dict_get matrices key = Some m
  | None => dict_get matrices key = None
  end.
Proof.
  intros Hnd Hms.
  apply (build_matrices_from_get _ _ _ _ _ key Hnd) in Hms.
  by destruct (dict_get connections key).
Qed.

(** ** The returned parameters *)

Section build_params_more.
Variable py_float : string → option float.

Lemma parsed_fields (stations : list station) (nodes : list node) :
  Forall2 (λ st nd, parse_station py_float st = Ok nd) stations nodes →
  map node_servers nodes = map st_servers stations
  ∧ map node_capacity nodes = map st_capacity stations.
Proof.
  induction 1 as [|st nd stations nodes Hnd _ [IHs IHc]]; simpl; [done|].
  unfold parse_station in Hnd. apply bind_Ok in Hnd as (r & _ & [= <-]).
  simpl. by rewrite IHs, IHc.
Qed.

Lemma build_params_end (stations : list station) (p : params) :
  build_params py_float stations = Ok p →
  ∃ s nodes,
    foldM_result (build_step py_float) initial_state stations = Ok s
    ∧ Forall2 (λ st nd, parse_station py_float st = Ok nd) stations nodes
    ∧ build_inv nodes s ∧ build_inv_more nodes s
    ∧ build_matrices (bs_names_to_nodes s) (length stations)
        (bs_connections s) = Ok (Transition_matrices p)
    ∧ Arrival_distributions p = bs_arrivals s
    ∧ Service_distributions p = bs_service s
    ∧ Number_of_nodes p = length stations
    ∧ Number_of_servers p = bs_servers s
    ∧ Queue_capacities p = bs_capacities s.
Proof.
  unfold build_params. intros Hp.
  apply bind_Ok in Hp as (s & Hloop & Hp).
  apply bind_Ok in Hp as (matrices & Hms & [= <-]). simpl.
  destruct (build_loop_end py_float _ _ Hloop) as (nodes & Hnodes & Hinv & Hmore).
  exists s, nodes. split_and!; done.
Qed.

(** X12: A returned model counts the stations, lists their server counts and
    their capacities in the order of the input, and is returned only for
    stations with distinct names. *)
Theorem build_params_per_node (stations : list station) (p : params) :
  build_params py_float stations = Ok p →
  Number_of_nodes p = length stations
  ∧ Number_of_servers p = map st_servers stations
  ∧ Queue_capacities p = map st_capacity stations
  ∧ NoDup (map st_name stations).
Proof.
  intros (s & nodes & _ & Hnodes & _ & Hmore & _ & _ & _ & Hn & Hsrv & Hcap)
    %build_params_end.
  destruct Hmore as (Hnd & _ & Hs & Hc & _).
  destruct (parsed_fields _ _ Hnodes) as [Hps Hpc].
  rewrite Hsrv, Hcap, Hs, Hc, Hps, Hpc.
  rewrite (parsed_names py_float _ _ Hnodes) in Hnd. done.
Qed.

(** X11: The loop numbers the stations from 1 in the order of the input, and
    gives a number to no other name. *)
Theorem names_to_nodes_numbering (stations : list station) (s : build_state) :
  foldM_result (build_step py_float) initial_state stations = Ok s →
  (∀ i st, stations !! i = Some st →
           dict_get (bs_names_to_nodes s) (st_name st)
           = Some (Z.of_nat i + 1)%Z)
  ∧ (∀ name, dict_get (bs_names_to_nodes s) name = None
             ↔ name ∉ map st_name stations)
  ∧ bs_current_node s = Z.of_nat (length stations).
Proof.
  intros Hloop.
  destruct (build_loop_end py_float _ _ Hloop)
    as (nodes & Hnodes & (Hcur & Hmem & _) & (_ & Hnames & _)).
  split_and!.
  - intros i st Hi.
    destruct (Forall2_lookup_l _ _ _ _ _ Hnodes Hi) as (nd & Hnd & Hparse).
    apply parse_station_Ok in Hparse as (r & _ & <- & _). by apply Hnames.
  - intros name. rewrite <- (parsed_names py_float _ _ Hnodes), <- Hmem.
    unfold dict_mem. destruct (dict_get (bs_names_to_nodes s) name);
      split; try done; intros Hne; by destruct Hne.
  - rewrite Hcur. by apply Forall2_length in Hnodes as ->.
Qed.

End build_params_more.

Lemma build_params_per_node_witness :
  ∃ p,
    build_params decimal_float [station_A; station_B; station_C] = Ok p
    ∧ Number_of_servers p = [1; 2; 2]%Z
    ∧ Queue_capacities p = [CapInt 10; CapInt 5; CapInt 5].
Proof.
  destruct (build_params decimal_float [station_A; station_B; station_C])
    as [p|e] eqn:Hp; [|vm_compute in Hp; discriminate].
  destruct (build_params_per_node decimal_float _ _ Hp) as (_ & Hs & Hc & _).
  exists p. split_and!; [done | exact Hs | exact Hc].
Defined.

Lemma names_to_nodes_numbering_witness :
  ∃ s,
    foldM_result (build_step decimal_float) initial_state
      [station_A; station_B; station_C] = Ok s
    ∧ dict_get (bs_names_to_nodes s) "C" = Some 3%Z.
Proof.
  destruct (foldM_result (build_step decimal_float) initial_state
              [station_A; station_B; station_C])
    as [s|e] eqn:Hs; [|vm_compute in Hs; discriminate].
  destruct (names_to_nodes_numbering decimal_float _ _ Hs) as (Hnum & _).
  exists s. split; [done|]. apply (Hnum 2%nat station_C). reflexivity.
Defined.

(** ** The classes of the returned parameters *)

Lemma column_lookup_present (ds : list (dict string descriptor))
  (key : string) (i : nat) (d : dict string descriptor) (v : descriptor) :
  ds !! i = Some d → dict_get d key = Some v → column ds key !! i = Some v.
Proof.
  intros Hi Hd. unfold column. rewrite lookup_map, Hi. simpl. by rewrite Hd.
Qed.

Lemma existsb_mem_lookup {V : Type} (ds : list (dict string V))
  (key : string) :
  existsb (dict_mem key) ds = true
  ↔ ∃ i d, ds !! i = Some d ∧ dict_mem key d = true.
Proof.
  rewrite existsb_exists. split.
  - intros (d & Hin & Hd). apply list_elem_of_In in Hin.
    apply list_elem_of_lookup_1 in Hin as [i Hi]. eauto.
  - intros (i & d & Hi & Hd). exists d. split; [|done].
    apply list_elem_of_In. by eapply list_elem_of_lookup_2.
Qed.

Section model_classes.
Variable py_float : string → option float.

(** The keys of the three mappings of a parsed station. *)
Lemma parse_station_keys (station : station) (nd : node) (key : string) :
  parse_station py_float station = Ok nd →
  let defined := ∃ n, n ∈ classes_of station ∧ key = class_key n in
  (dict_mem key (node_arrivals nd) = true ↔ defined)
  ∧ (dict_mem key (node_service nd) = true ↔ defined)
  ∧ (dict_mem key (node_connections nd) = true ↔ defined).
Proof.
  intros (r & Hr & _ & -> & -> & ->)%parse_station_Ok defined.
  apply parse_customers_Ok in Hr as (servs & conns & Hss & Hcs & -> & -> & ->).
  apply Forall2_length in Hss, Hcs.
  assert (key ∈ map (λ c, class_key (cust_class c)) (st_customers station)
          ↔ defined) as Hkeys.
  { unfold defined, classes_of. rewrite list_elem_of_fmap. split.
    - intros (c & -> & Hin). exists (cust_class c). split; [|done].
      apply list_elem_of_fmap. eauto.
    - intros (n & Hin & ->). apply list_elem_of_fmap in Hin as (c & -> & Hin).
      eauto. }
  rewrite !dict_mem_true.
  rewrite !dict_zip_keys_elem by (by rewrite ?length_map). done.
Qed.

Lemma parse_station_last (station : station) (nd : node) (c : customer) :
  parse_station py_float station = Ok nd →
  last_of_class (st_customers station) c →
  dict_get (node_arrivals nd) (class_key (cust_class c))
  = Some (parse_arrival py_float c)
  ∧ (∃ sd, parse_service py_float c = Ok sd
           ∧ dict_get (node_service nd) (class_key (cust_class c)) = Some sd)
  ∧ dict_get (node_connections nd) (class_key (cust_class c))
    = Some (map (edge_of (st_name station)) (routes_of c)).
Proof.
  intros (r & Hr & _ & -> & -> & ->)%parse_station_Ok
         (pre & post & Hc & Hlast).
  rewrite Hc in Hr.
  apply parse_customers_last in Hr as (Ha & Hs & (es & Hes & Hget)); [|done].
  apply parse_routing_Ok in Hes as [_ ->]. done.
Qed.

Lemma seen_defined (stations : list station) (nodes : list node)
  (key : string) :
  Forall2 (λ st nd, parse_station py_float st = Ok nd) stations nodes →
  (seen (map node_arrivals nodes) key = true ↔ class_defined stations key)
  ∧ (seen (map node_service nodes) key = true ↔ class_defined stations key)
  ∧ (seen_edges (map node_connections nodes) key = true
     ↔ class_defined stations key).
Proof.
  intros Hnodes. unfold seen, seen_edges. rewrite !existsb_mem_lookup.
  assert (∀ (V : Type) (field : node → dict string V),
            (∀ st nd, parse_station py_float st = Ok nd →
                      dict_mem key (field nd) = true
                      ↔ ∃ n, n ∈ classes_of st ∧ key = class_key n) →
            (∃ i d, map field nodes !! i = Some d ∧ dict_mem key d = true)
            ↔ class_defined stations key) as Hfield.
  { intros V field Hkeys. split.
    - intros (i & d & Hi & Hd). rewrite lookup_map in Hi.
      destruct (nodes !! i) as [nd|] eqn:Hnd; [|discriminate].
      injection Hi as <-.
      destruct (Forall2_lookup_r _ _ _ _ _ Hnodes Hnd) as (st & Hst & Hparse).
      destruct (proj1 (Hkeys _ _ Hparse) Hd) as (n & Hn & Hkey).
      exists st, n. split_and!; [|done..]. by eapply list_elem_of_lookup_2.
    - intros (st & n & Hst & Hn & Hkey).
      apply list_elem_of_lookup_1 in Hst as [i Hi].
      destruct (Forall2_lookup_l _ _ _ _ _ Hnodes Hi) as (nd & Hnd & Hparse).
      exists i, (field nd). rewrite lookup_map, Hnd. split; [done|].
      apply (Hkeys _ _ Hparse). eauto. }
  split_and!; apply Hfield; intros st nd Hparse;
    by destruct (parse_station_keys st nd key Hparse) as (? & ? & ?).
Qed.

(** X13: The arrival sequences, the service sequences and the transition
    matrices of a returned model have the same keys: the keys of the
    classes for which some station has an entry, and no other. *)
Theorem model_class_keys (stations : list station) (p : params)
  (key : string) :
  build_params py_float stations = Ok p →
  (is_Some (dict_get (Arrival_distributions p) key)
   ↔ class_defined stations key)
  ∧ (is_Some (dict_get (Service_distributions p) key)
     ↔ class_defined stations key)
  ∧ (is_Some (dict_get (Transition_matrices p) key)
     ↔ class_defined stations key).
Proof.
  intros (s & nodes & _ & Hnodes & (_ & _ & Harr & Hserv)
          & (_ & _ & _ & _ & Hkeys & Hconn) & Hms & -> & -> & _)
    %build_params_end.
  destruct (seen_defined stations nodes key Hnodes) as (Ha & Hs & Hc).
  rewrite Harr, Hserv. unfold aggregated. split_and!.
  - rewrite <- Ha. destruct (seen (map node_arrivals nodes) key).
    + split; [done | intros _; by eexists].
    + split; [by intros [? [=]] | done].
  - rewrite <- Hs. destruct (seen (map node_service nodes) key).
    + split; [done | intros _; by eexists].
    + split; [by intros [? [=]] | done].
  - rewrite <- Hc. pose proof (build_matrices_get _ _ _ _ key Hkeys Hms) as Hm.
    rewrite Hconn in Hm. unfold aggregated_edges in Hm.
    destruct (seen_edges _ key).
    + destruct Hm as (m & _ & ->). split; [done | intros _; by eexists].
    + rewrite Hm. split; [by intros [? [=]] | done].
Qed.

(** X14: In a returned model, the sequences of a class hold, at the place of a
    station that has entries for the class, the arrival descriptor and the
    service descriptor of the last of those entries. *)
Theorem defined_class_position (stations : list station) (p : params)
  (i : nat) (station : station) (c : customer) :
  build_params py_float stations = Ok p →
  stations !! i = Some station →
  last_of_class (st_customers station) c →
  ∃ arrivals services sd,
    dict_get (Arrival_distributions p) (class_key (cust_class c))
    = Some arrivals
    ∧ arrivals !! i = Some (parse_arrival py_float c)
    ∧ parse_service py_float c = Ok sd
    ∧ dict_get (Service_distributions p) (class_key (cust_class c))
      = Some services
    ∧ services !! i = Some sd.
Proof.
  intros (s & nodes & _ & Hnodes & (_ & _ & Harr & Hserv) & _ & _ & -> & -> & _)
    %build_params_end Hi Hlast.
  destruct (Forall2_lookup_l _ _ _ _ _ Hnodes Hi) as (nd & Hnd & Hparse).
  destruct (parse_station_last _ _ _ Hparse Hlast)
    as (Ha & (sd & Hsd & Hs) & _).
  set (key := class_key (cust_class c)) in *.
  exists (column (map node_arrivals nodes) key),
         (column (map node_service nodes) key), sd.
  rewrite Harr, Hserv. unfold aggregated.
  assert (dict_mem key (node_arrivals nd) = true) as Hma.
  { unfold dict_mem. by rewrite Ha. }
  assert (dict_mem key (node_service nd) = true) as Hms.
  { unfold dict_mem. by rewrite Hs. }
  rewrite (seen_lookup (map node_arrivals nodes) key i (node_arrivals nd));
    [|by rewrite lookup_map, Hnd | done].
  rewrite (seen_lookup (map node_service nodes) key i (node_service nd));
    [|by rewrite lookup_map, Hnd | done].
  split_and!; try done.
  - apply (column_lookup_present _ _ _ (node_arrivals nd));
      [by rewrite lookup_map, Hnd | done].
  - apply (column_lookup_present _ _ _ (node_service nd));
      [by rewrite lookup_map, Hnd | done].
Qed.

End model_classes.

Lemma model_class_keys_witness :
  ∃ p,
    build_params decimal_float [station_A; station_B; station_C] = Ok p
    ∧ is_Some (dict_get (Transition_matrices p) "Class 2")
    ∧ is_Some (dict_get (Arrival_distributions p) "Class 2").
Proof.
  destruct (build_params decimal_float [station_A; station_B; station_C])
    as [p|e] eqn:Hp; [|vm_compute in Hp; discriminate].
  destruct (model_class_keys decimal_float _ _ "Class 2" Hp) as (Ha & _ & Hm).
  assert (class_defined [station_A; station_B; station_C] "Class 2") as Hdef.
  { exists station_C, 2%Z. split_and!; [|by left|reflexivity].
    do 2 apply elem_of_cons, or_intror. by left. }
  exists p. split_and!; [done | by apply Hm | by apply Ha].
Defined.

Lemma defined_class_position_witness :
  ∃ p arrivals,
    build_params decimal_float [station_A; station_B; station_C] = Ok p
    ∧ dict_get (Arrival_distributions p) "Class 1" = Some arrivals
    ∧ arrivals !! 0%nat = Some (Dist "Exponential" [2%float]).
Proof.
  destruct (build_params decimal_float [station_A; station_B; station_C])
    as [p|e] eqn:Hp; [|vm_compute in Hp; discriminate].
  destruct (defined_class_position decimal_float _ p 0 station_A
              (customer_of 1 (Some "Exponential 2.0") "Exponential 5.0"
                 (Some [route "B" 0.8])) Hp)
    as (arrivals & services & sd & Ha & Hai & _).
  - reflexivity.
  - exists [], []. split; [reflexivity | apply not_elem_of_nil].
  - exists p, arrivals. split_and!; [done | exact Ha | exact Hai].
Defined.

(** ** When the build fails and when it succeeds *)

Lemma dict_get_elem {K : Type} `{EqDecision K} {V : Type} (d : dict K V)
  (k : K) (v : V) :
  NoDup (dict_keys d) → (k, v) ∈ d ↔ dict_get d k = Some v.
Proof.
  unfold dict_keys. induction d as [|[k' v'] d IH]; simpl; intros Hnd.
  - split; [by intros ?%elem_of_nil | discriminate].
  - apply NoDup_cons in Hnd as [Hk Hnd]. rewrite elem_of_cons.
    destruct (decide (k = k')) as [->|Hne].
    + split.
      * intros [[= ->]|Hin]; [done|]. destruct Hk.
        apply list_elem_of_fmap. by exists (k', v).
      * intros [= ->]. by left.
    + rewrite <- IH by done. split; [|tauto].
      intros [[= -> ->]|Hin]; done.
Qed.

Lemma forallb_edges_get (names_to_nodes : dict string Z)
  (connections : dict string (list edge)) :
  NoDup (dict_keys connections) →
  forallb (λ kc, forallb (edge_known names_to_nodes) kc.2) connections = true
  ↔ ∀ key c e, dict_get connections key = Some c → e ∈ c →
               edge_known names_to_nodes e = true.
Proof.
  intros Hnd. rewrite forallb_forall. split.
  - intros Hall key c e Hget He.
    apply (dict_get_elem _ _ _ Hnd) in Hget. apply list_elem_of_In in Hget.
    specialize (Hall _ Hget). simpl in Hall.
    rewrite forallb_forall in Hall. apply Hall. by apply list_elem_of_In.
  - intros Hall [key c] Hin. simpl. rewrite forallb_forall. intros e He.
    apply list_elem_of_In in Hin, He.
    apply (dict_get_elem _ _ _ Hnd) in Hin. eauto.
Qed.

Lemma elem_of_concat {A : Type} (x : A) (ls : list (list A)) :
  x ∈ concat ls ↔ ∃ l, x ∈ l ∧ l ∈ ls.
Proof.
  induction ls as [|l ls IH]; simpl.
  - split; [by intros ?%elem_of_nil|]. intros (l & _ & Hl).
    by apply elem_of_nil in Hl.
  - rewrite elem_of_app, IH. split.
    + intros [Hx|(l' & Hx & Hl')].
      * exists l. split; [done | by left].
      * exists l'. split; [done | by right].
    + intros (l' & Hx & [->|Hl']%elem_of_cons); [by left|].
      right. eauto.
Qed.

(** The edges of a class in the merged mapping are those that the parsed
    stations hold for the class. *)
Lemma aggregated_edges_elem (ds : list (dict string (list edge)))
  (key : string) (e : edge) :
  (∃ c, aggregated_edges ds key = Some c ∧ e ∈ c)
  ↔ ∃ i d es, ds !! i = Some d ∧ dict_get d key = Some es ∧ e ∈ es.
Proof.
  unfold aggregated_edges. split.
  - intros (c & Hc & He). destruct (seen_edges ds key); [|discriminate].
    injection Hc as <-. apply elem_of_concat in He as (es & He & Hes).
    unfold edge_column in Hes.
    apply list_elem_of_fmap in Hes as (d & -> & Hd).
    apply list_elem_of_lookup_1 in Hd as [i Hi].
    destruct (dict_get d key) as [es|] eqn:Hget;
      [|by apply elem_of_nil in He].
    exists i, d, es. done.
  - intros (i & d & es & Hi & Hget & He).
    assert (seen_edges ds key = true) as ->.
    { apply existsb_mem_lookup. exists i, d. split; [done|].
      unfold dict_mem. by rewrite Hget. }
    eexists. split; [done|]. apply elem_of_concat. exists es.
    split; [done|]. unfold edge_column. apply list_elem_of_fmap.
    exists d. rewrite Hget. split; [done|]. by eapply list_elem_of_lookup_2.
Qed.

Section build_outcome.
Variable py_float : string → option float.

Lemma parse_station_is_ok (station : station) :
  is_ok (parse_station py_float station)
  = forallb (entry_ok py_float (st_name station)) (st_customers station).
Proof.
  rewrite <- parse_customers_is_ok. unfold parse_station.
  by destruct (parse_customers py_float _ _).
Qed.

Lemma entries_ok_parse (stations : list station) :
  entries_ok py_float stations
  ↔ ∀ st, st ∈ stations → is_ok (parse_station py_float st) = true.
Proof.
  unfold entries_ok. split.
  - intros Hall st Hst. rewrite parse_station_is_ok, forallb_forall.
    intros c Hc. apply list_elem_of_In in Hc. eauto.
  - intros Hall st c Hst Hc. specialize (Hall st Hst).
    rewrite parse_station_is_ok, forallb_forall in Hall.
    apply Hall. by apply list_elem_of_In.
Qed.

(** The loop goes through stations that parse and whose names are new. *)
Lemma build_loop_succeeds (stations : list station) (before : list node)
  (s : build_state) :
  build_inv before s →
  (∀ st, st ∈ stations → is_ok (parse_station py_float st) = true) →
  NoDup (map node_name before ++ map st_name stations) →
  is_ok (foldM_result (build_step py_float) s stations) = true.
Proof.
  revert before s. induction stations as [|st stations IH];
    intros before s Hinv Hparse Hnd; simpl; [done|].
  assert (st ∈ st :: stations) as Hst by (by left).
  destruct (is_ok_true _ (Hparse st Hst)) as [nd Hnd'].
  pose proof Hnd' as (r & _ & Hname & _)%parse_station_Ok.
  destruct (build_step py_float s st) as [s1|e] eqn:Hstep.
  - simpl. destruct (build_step_inv py_float _ _ _ _ Hinv Hstep)
      as (nd1 & Hnd1 & _ & Hinv1).
    assert (nd1 = nd) as -> by congruence.
    apply (IH (before ++ [nd])); [done | |].
    + intros st' Hst'. apply Hparse. by right.
    + rewrite map_app, <- app_assoc. simpl. by rewrite Hname.
  - exfalso. unfold build_step in Hstep. rewrite Hnd' in Hstep.
    simpl in Hstep.
    destruct (dict_mem (node_name nd) (bs_names_to_nodes s)) eqn:Hmem;
      [|discriminate].
    destruct Hinv as (_ & Hnames & _). apply Hnames in Hmem.
    simpl in Hnd. apply NoDup_app in Hnd as (_ & Hdisj & _).
    apply (Hdisj _ Hmem). rewrite Hname. by left.
Qed.

Lemma build_loop_is_ok (stations : list station) :
  is_ok (foldM_result (build_step py_float) initial_state stations) = true
  ↔ entries_ok py_float stations ∧ NoDup (map st_name stations).
Proof.
  rewrite entries_ok_parse. split.
  - intros [s Hs]%is_ok_true.
    destruct (build_loop_end py_float _ _ Hs) as (nodes & Hnodes & _ & Hmore).
    split.
    + intros st Hst. apply list_elem_of_lookup_1 in Hst as [i Hi].
      destruct (Forall2_lookup_l _ _ _ _ _ Hnodes Hi) as (nd & _ & ->). done.
    + destruct Hmore as (Hnd & _).
      by rewrite (parsed_names py_float _ _ Hnodes) in Hnd.
  - intros [Hparse Hnd].
    by apply (build_loop_succeeds stations [] _ build_inv_initial).
Qed.

(** After the loop, the edges of the merged mapping are known exactly when
    the kept routing targets name stations. *)
Lemma merged_edges_known (stations : list station) (s : build_state) :
  foldM_result (build_step py_float) initial_state stations = Ok s →
  (∀ key c e, dict_get (bs_connections s) key = Some c → e ∈ c →
              edge_known (bs_names_to_nodes s) e = true)
  ↔ targets_defined stations.
Proof.
  intros Hs.
  destruct (build_loop_end py_float _ _ Hs)
    as (nodes & Hnodes & (_ & Hmem & _) & (_ & _ & _ & _ & _ & Hconn)).
  rewrite (parsed_names py_float _ _ Hnodes) in Hmem.
  split.
  - intros Hknown st c conn Hst Hlast Hconn_in.
    apply list_elem_of_lookup_1 in Hst as [i Hi].
    destruct (Forall2_lookup_l _ _ _ _ _ Hnodes Hi) as (nd & Hnd & Hparse).
    destruct (parse_station_last py_float _ _ _ Hparse Hlast) as (_ & _ & Hget).
    set (e := edge_of (st_name st) conn).
    destruct (proj2 (aggregated_edges_elem (map node_connections nodes)
                       (class_key (cust_class c)) e)) as (es & Hes & He).
    { exists i, (node_connections nd), (map (edge_of (st_name st)) (routes_of c)).
      rewrite lookup_map, Hnd. split_and!; [done..|].
      apply list_elem_of_fmap. by exists conn. }
    rewrite <- Hconn in Hes. specialize (Hknown _ _ _ Hes He).
    unfold edge_known in Hknown. apply andb_true_iff in Hknown as [_ Ht].
    apply Hmem in Ht. done.
  - intros Htargets key c e Hget He. rewrite Hconn in Hget.
    destruct (proj1 (aggregated_edges_elem (map node_connections nodes) key e))
      as (i & d & es & Hi & Hes & He'); [by exists c|].
    rewrite lookup_map in Hi.
    destruct (nodes !! i) as [nd|] eqn:Hnd; [|discriminate].
    injection Hi as <-.
    destruct (Forall2_lookup_r _ _ _ _ _ Hnodes Hnd) as (st & Hst & Hparse).
    pose proof Hparse as (r & Hr & _ & _ & _ & Hnc)%parse_station_Ok.
    rewrite Hnc in Hes.
    destruct (parse_customers_edges_inv py_float _ _ _ _ _ Hr Hes)
      as (cu & Hlast & _ & -> & _ & _).
    apply list_elem_of_fmap in He' as (conn & -> & Hconn_in).
    assert (st ∈ stations) as Hin by (by eapply list_elem_of_lookup_2).
    unfold edge_known, edge_of. simpl. apply andb_true_iff. split.
    + apply Hmem. apply list_elem_of_fmap. by exists st.
    + apply Hmem. by apply (Htargets st cu conn).
Qed.

(** X16: [build_params] returns a model exactly when every entry of every
    station has a service specification and a routing list that parse, the
    names of the stations are distinct, and every routing target that is
    kept names a station. *)
Theorem build_params_succeeds_iff (stations : list station) :
  is_ok (build_params py_float stations) = true
  ↔ entries_ok py_float stations
    ∧ NoDup (map st_name stations)
    ∧ targets_defined stations.
Proof.
  unfold build_params.
  destruct (foldM_result (build_step py_float) initial_state stations)
    as [s|e] eqn:Hs; simpl.
  - assert (entries_ok py_float stations ∧ NoDup (map st_name stations))
      as [Hentries Hnd].
    { apply build_loop_is_ok. by rewrite Hs. }
    destruct (build_loop_end py_float _ _ Hs)
      as (nodes & _ & _ & (_ & _ & _ & _ & Hkeys & _)).
    rewrite <- (merged_edges_known _ _ Hs).
    rewrite <- (forallb_edges_get _ _ Hkeys).
    rewrite <- (build_matrices_is_ok _ (length stations)).
    destruct (build_matrices _ _ _); simpl; split; try done; tauto.
  - split; [discriminate|]. intros (Hentries & Hnd & _).
    assert (is_ok (foldM_result (build_step py_float) initial_state stations)
            = true) as Hok by (by apply build_loop_is_ok).
    by rewrite Hs in Hok.
Qed.

Lemma build_params_station_raises (pre post : list station)
  (station : station) (s : build_state) (e : error) :
  foldM_result (build_step py_float) initial_state pre = Ok s →
  parse_station py_float station = Raise e →
  build_params py_float (pre ++ station :: post) = Raise e.
Proof.
  intros Hpre Hst. unfold build_params.
  rewrite foldM_result_app, Hpre. simpl. unfold build_step at 1.
  by rewrite Hst.
Qed.

(** X17: The error of the first station that fails to parse is the error of
    the build, whatever the stations after it are. *)
Theorem build_params_first_failure (pre post : list station)
  (station : station) (s : build_state) (e : error) :
  foldM_result (build_step py_float) initial_state pre = Ok s →
  parse_customers py_float (st_customers station) (st_name station)
  = Raise e →
  build_params py_float (pre ++ station :: post) = Raise e.
Proof.
  intros Hpre Hst. apply (build_params_station_raises _ _ _ s); [done|].
  unfold parse_station. by rewrite Hst.
Qed.

(** X18: A station one of whose entries has routing probabilities that sum
    above 1.0 makes the build fail with the overflow error that names this
    station, when nothing before that entry fails. *)
Theorem build_params_overflow (pre post : list station) (station : station)
  (s : build_state) (before after : list customer) (c : customer) :
  foldM_result (build_step py_float) initial_state pre = Ok s →
  st_customers station = before ++ c :: after →
  forallb (entry_ok py_float (st_name station)) before = true →
  is_ok (parse_service py_float c) = true →
  PrimFloat.ltb 1%float (total_prob (routes_of c)) = true →
  build_params py_float (pre ++ station :: post)
  = Raise (ProbabilityOverflow (st_name station)).
Proof.
  intros Hpre Hcs Hbefore [sd Hsd]%is_ok_true Hsum.
  apply (build_params_station_raises _ _ _ s); [done|].
  unfold parse_station. rewrite Hcs.
  rewrite (parse_customers_first_failure py_float before after c _
             (ProbabilityOverflow (st_name station))); [done..|].
  intros [[[ks ds] ss] es]. unfold parse_customer. rewrite Hsd. simpl.
  unfold parse_routing, routes_of in *.
  destruct (cust_connections c) as [cs|]; simpl in *.
  - rewrite parse_connections_eq, Hsum. done.
  - vm_compute in Hsum. discriminate.
Qed.

End build_outcome.

Lemma build_params_succeeds_iff_witness :
  NoDup (map st_name [station_A; station_B; station_C])
  ∧ targets_defined [station_A; station_B; station_C].
Proof.
  destruct (build_params_succeeds_iff decimal_float
              [station_A; station_B; station_C]) as [Hok _].
  destruct Hok as (_ & Hnd & Htargets); [reflexivity|].
  split; [exact Hnd | exact Htargets].
Defined.

Lemma build_params_first_failure_witness :
  build_params decimal_float
    [station_A; station_of "B" 5 2 [customer_of 1 None "Poisson 3" None];
     station_C]
  = Raise (UnsupportedDistribution "Poisson").
Proof.
  destruct (foldM_result (build_step decimal_float) initial_state [station_A])
    as [s|e] eqn:Hpre; [|vm_compute in Hpre; discriminate].
  apply (build_params_first_failure decimal_float [station_A] [station_C]
           (station_of "B" 5 2 [customer_of 1 None "Poisson 3" None]) s).
  - exact Hpre.
  - reflexivity.
Defined.

Lemma build_params_overflow_witness :
  build_params decimal_float
    [station_A;
     station_of "B" 5 2
       [customer_of 1 None "Deterministic 1.0"
          (Some [route "A" 0.75; route "C" 0.75])];
     station_C]
  = Raise (ProbabilityOverflow "B").
Proof.
  destruct (foldM_result (build_step decimal_float) initial_state [station_A])
    as [s|e] eqn:Hpre; [|vm_compute in Hpre; discriminate].
  apply (build_params_overflow decimal_float [station_A] [station_C]
           (station_of "B" 5 2
              [customer_of 1 None "Deterministic 1.0"
                 (Some [route "A" 0.75; route "C" 0.75])])
           s [] []
           (customer_of 1 None "Deterministic 1.0"
              (Some [route "A" 0.75; route "C" 0.75]))).
  - exact Hpre.
  - reflexivity.
  - reflexivity.
  - reflexivity.
  - reflexivity.
Defined.

(** ** The shape of the matrices *)

Lemma NoDup_bounded_length (l : list Z) (n : nat) :
  NoDup l → (∀ x, x ∈ l → (1 ≤ x ≤ Z.of_nat n)%Z) → length l ≤ n.
Proof.
  intros Hnd Hrange.
  assert (l ⊆+ seqZ 1 (Z.of_nat n)) as Hsub.
  { apply NoDup_submseteq; [done|]. intros x Hx. apply elem_of_seqZ.
    specialize (Hrange x Hx). lia. }
  apply submseteq_length in Hsub. rewrite length_seqZ in Hsub. lia.
Qed.

Lemma concat_all_nil {A : Type} (ls : list (list A)) :
  Forall (λ l, l = []) ls → concat ls = [].
Proof. induction 1 as [|l ls -> _ IH]; simpl; done. Qed.

Lemma number_edge_Ok (names_to_nodes : dict string Z) (e : edge)
  (u v : Z) (w : float) :
  number_edge names_to_nodes e = Ok (u, v, w) →
  dict_get names_to_nodes e.1.1 = Some u
  ∧ dict_get names_to_nodes e.1.2 = Some v.
Proof.
  destruct e as [[source target] w']. unfold number_edge, node_of. simpl.
  destruct (dict_get names_to_nodes source); simpl; [|discriminate].
  destruct (dict_get names_to_nodes target); simpl; [|discriminate].
  by intros [= -> -> _].
Qed.

(** A matrix that is built is square, and no larger than the largest
    number given to a station. *)
Lemma transition_matrix_shape (names_to_nodes : dict string Z)
  (num_nodes : nat) (c : list edge) (m : matrix) :
  (∀ name idx, dict_get names_to_nodes name = Some idx →
               (1 ≤ idx ≤ Z.of_nat num_nodes)%Z) →
  transition_matrix names_to_nodes num_nodes c = Ok m →
  Forall (λ row, length row = length m) m ∧ length m ≤ num_nodes.
Proof.
  intros Hrange. unfold transition_matrix. case_bool_decide as Hc.
  - intros Hm. apply bind_Ok in Hm as (es & Hes & [= <-]).
    rewrite to_numpy_matrix_length. split; [apply to_numpy_matrix_rows|].
    apply NoDup_bounded_length.
    + apply add_edges_from_NoDup. apply NoDup_nil_2.
    + intros x Hx. apply add_edges_from_nodes in Hx
        as [Hx|(u & v & w & Hin & Hx)]; [by apply elem_of_nil in Hx|].
      apply mapM_result_Ok in Hes.
      apply list_elem_of_lookup_1 in Hin as [i Hi].
      destruct (Forall2_lookup_r _ _ _ _ _ Hes Hi) as (e & _ & He).
      apply number_edge_Ok in He as [Hu Hv].
      destruct Hx as [->| ->]; eauto.
  - intros [= <-]. rewrite length_replicate. split; [|done].
    apply Forall_replicate. apply length_replicate.
Qed.

Section matrices_shape.
Variable py_float : string → option float.

Lemma names_range (nodes : list node) (s : build_state) (name : string)
  (idx : Z) :
  build_inv nodes s → build_inv_more nodes s →
  dict_get (bs_names_to_nodes s) name = Some idx →
  (1 ≤ idx ≤ Z.of_nat (length nodes))%Z.
Proof.
  intros (_ & Hmem & _) (_ & Hnames & _) Hget.
  assert (name ∈ map node_name nodes) as Hin.
  { apply Hmem. unfold dict_mem. by rewrite Hget. }
  apply list_elem_of_fmap in Hin as (nd & -> & Hnd).
  apply list_elem_of_lookup_1 in Hnd as [i Hi].
  pose proof (Hnames _ _ Hi) as Hidx. rewrite Hget in Hidx.
  injection Hidx as ->. apply lookup_lt_Some in Hi. lia.
Qed.

(** X15: Every transition matrix of a returned model is square and has at most
    as many rows as there are stations; the matrix of a class for which no
    station keeps a routing target is the zero matrix over all stations. *)
Theorem transition_matrices_shape (stations : list station) (p : params)
  (key : string) (m : matrix) :
  build_params py_float stations = Ok p →
  dict_get (Transition_matrices p) key = Some m →
  Forall (λ row, length row = length m) m
  ∧ length m ≤ length stations
  ∧ ((∀ st c, st ∈ stations → last_of_class (st_customers st) c →
              class_key (cust_class c) = key → routes_of c = []) →
     m = replicate (length stations) (replicate (length stations) 0%float)).
Proof.
  intros (s & nodes & _ & Hnodes & Hinv & Hmore & Hms & _)%build_params_end Hm.
  pose proof Hmore as (_ & _ & _ & _ & Hkeys & Hconn).
  pose proof (build_matrices_get _ _ _ _ key Hkeys Hms) as Hget.
  destruct (dict_get (bs_connections s) key) as [c|] eqn:Hc;
    [|congruence].
  destruct Hget as (m' & Hm' & Hget). rewrite Hm in Hget.
  injection Hget as <-.
  destruct (transition_matrix_shape _ _ _ _
              (λ name idx, names_range nodes s name idx Hinv Hmore)
              ltac:(rewrite <- (Forall2_length _ _ _ Hnodes); exact Hm'))
    as [Hsq Hle].
  rewrite <- (Forall2_length _ _ _ Hnodes) in Hle.
  split_and!; [done..|].
  intros Hnone. assert (c = []) as ->.
  { rewrite Hconn in Hc. unfold aggregated_edges in Hc.
    destruct (seen_edges _ key); [|discriminate]. injection Hc as <-.
    apply concat_all_nil. unfold edge_column.
    apply Forall_fmap, Forall_fmap, Forall_forall. intros nd Hnd. simpl.
    destruct (dict_get (node_connections nd) key) as [es|] eqn:Hes; [|done].
    simpl. apply list_elem_of_lookup_1 in Hnd as [i Hi].
    destruct (Forall2_lookup_r _ _ _ _ _ Hnodes Hi) as (st & Hst & Hparse).
    apply parse_station_Ok in Hparse as (r & Hr & _ & _ & _ & Hnc).
    rewrite Hnc in Hes.
    destruct (parse_customers_edges_inv py_float _ _ _ _ _ Hr Hes)
      as (cu & Hlast & Hkey & -> & _).
    rewrite (Hnone st cu); [done | by eapply list_elem_of_lookup_2 | done..]. }
  rewrite transition_matrix_no_edges in Hm'. by injection Hm' as <-.
Qed.

End matrices_shape.

Lemma transition_matrices_shape_witness :
  ∃ p m,
    build_params decimal_float [station_A; station_B; station_C] = Ok p
    ∧ dict_get (Transition_matrices p) "Class 1" = Some m
    ∧ Forall (λ row, length row = length m) m
    ∧ length m ≤ 3.
Proof.
  destruct (build_params decimal_float [station_A; station_B; station_C])
    as [p|e] eqn:Hp; [|vm_compute in Hp; discriminate].
  destruct (dict_get (Transition_matrices p) "Class 1") as [m|] eqn:Hm;
    [|vm_compute in Hp; injection Hp as <-; vm_compute in Hm; discriminate].
  destruct (transition_matrices_shape decimal_float _ _ _ _ Hp Hm)
    as (Hsq & Hle & _).
  exists p, m. split_and!; [done | done | exact Hsq | exact Hle].
Defined.

(** ** The causes of an error *)

Lemma foldM_result_Raise_inv {A S : Type} (body : S → A → result S) (s : S)
  (l : list A) (e : error) :
  foldM_result body s l = Raise e →
  ∃ pre x post s',
    l = pre ++ x :: post ∧ foldM_result body s pre = Ok s'
    ∧ body s' x = Raise e.
Proof.
  revert s. induction l as [|x l IH]; intros s; simpl; [discriminate|].
  destruct (body s x) as [s1|e'] eqn:Hx; simpl.
  - intros (pre & y & post & s' & -> & Hpre & Hy)%IH.
    exists (x :: pre), y, post, s'. simpl. rewrite Hx. done.
  - intros [= ->]. exists [], x, l, s. done.
Qed.

Section error_causes.
Variable py_float : string → option float.

Lemma parse_customer_Raise (current_name : string) (acc : customer_lists)
  (c : customer) (e : error) :
  parse_customer py_float current_name acc c = Raise e →
  parse_service py_float c = Raise e
  ∨ (PrimFloat.ltb 1%float (total_prob (routes_of c)) = true
     ∧ e = ProbabilityOverflow current_name).
Proof.
  destruct acc as [[[ks ds] ss] es]. unfold parse_customer.
  destruct (parse_service py_float c) as [sd|e'] eqn:Hsd; simpl;
    [|intros [= ->]; by left].
  unfold parse_routing, routes_of.
  destruct (cust_connections c) as [cs|]; simpl; [|discriminate].
  rewrite parse_connections_eq.
  destruct (PrimFloat.ltb 1 (total_prob cs)); simpl; [|discriminate].
  intros [= <-]. by right.
Qed.

(** What makes a station fail to parse. *)
Lemma parse_station_Raise (station : station) (e : error) :
  parse_station py_float station = Raise e →
  ∃ c, c ∈ st_customers station
       ∧ (parse_service py_float c = Raise e
          ∨ (PrimFloat.ltb 1%float (total_prob (routes_of c)) = true
             ∧ e = ProbabilityOverflow (st_name station))).
Proof.
  unfold parse_station, parse_customers.
  destruct (foldM_result _ _ (st_customers station))
    as [[[[ks ds] ss] es]|e'] eqn:Hloop; simpl; [discriminate|].
  intros [= ->].
  apply foldM_result_Raise_inv in Hloop
    as (pre & c & post & acc & Hcs & _ & Hc).
  exists c. split.
  - rewrite Hcs. apply elem_of_app. right. by left.
  - by apply parse_customer_Raise in Hc.
Qed.

Lemma build_step_Raise (s : build_state) (station : station) (e : error) :
  build_step py_float s station = Raise e →
  parse_station py_float station = Raise e
  ∨ (dict_mem (st_name station) (bs_names_to_nodes s) = true
     ∧ e = DuplicateStationName (st_name station)).
Proof.
  unfold build_step.
  destruct (parse_station py_float station) as [nd|e'] eqn:Hnd; simpl;
    [|intros [= ->]; by left].
  apply parse_station_Ok in Hnd as (r & _ & -> & _).
  destruct (dict_mem _ _); [|discriminate]. intros [= <-]. by right.
Qed.

Lemma number_edge_Raise (names_to_nodes : dict string Z) (t : edge)
  (e : error) :
  number_edge names_to_nodes t = Raise e →
  (dict_get names_to_nodes t.1.1 = None ∧ e = KeyError t.1.1)
  ∨ (dict_get names_to_nodes t.1.2 = None ∧ e = KeyError t.1.2).
Proof.
  destruct t as [[source target] w]. unfold number_edge, node_of. simpl.
  destruct (dict_get names_to_nodes source); simpl;
    [|intros [= <-]; by left].
  destruct (dict_get names_to_nodes target); simpl; [discriminate|].
  intros [= <-]. by right.
Qed.

Lemma build_matrices_Raise (names_to_nodes : dict string Z) (num_nodes : nat)
  (connections : dict string (list edge)) (e : error) :
  NoDup (dict_keys connections) →
  build_matrices names_to_nodes num_nodes connections = Raise e →
  ∃ key c t,
    dict_get connections key = Some c ∧ t ∈ c
    ∧ number_edge names_to_nodes t = Raise e.
Proof.
  intros Hnd Hms. unfold build_matrices in Hms.
  apply foldM_result_Raise_inv in Hms
    as (pre & [key c] & post & ms & Hconn & _ & Hbody).
  destruct (transition_matrix names_to_nodes num_nodes c) as [m|e'] eqn:Hm;
    simpl in Hbody; [discriminate|]. injection Hbody as ->.
  unfold transition_matrix in Hm. case_bool_decide; [|discriminate].
  destruct (mapM_result (number_edge names_to_nodes) c) as [es|e'] eqn:Hes;
    simpl in Hm; [discriminate|]. injection Hm as ->.
  apply mapM_result_Raise_inv in Hes as (cpre & t & cpost & -> & _ & Ht).
  exists key, (cpre ++ t :: cpost), t. split_and!; [|by apply elem_of_app; right; left|done].
  apply dict_get_elem; [done|]. rewrite Hconn.
  apply elem_of_app. right. by left.
Qed.

(** X19: Every error of [build_params] has its cause in the stations: the error
    of a service specification, a missing service specification, a routing
    list above 1.0 at the station named by the error, a repeated station
    name, or a kept routing target that is the name of no station. *)
Theorem build_params_error_cause (stations : list station) (e : error) :
  build_params py_float stations = Raise e →
  error_cause py_float stations e.
Proof.
  unfold build_params.
  destruct (foldM_result (build_step py_float) initial_state stations)
    as [s|e'] eqn:Hloop; simpl.
  - destruct (build_matrices _ _ _) as [ms|e'] eqn:Hms; simpl; [discriminate|].
    intros [= ->].
    destruct (build_loop_end py_float _ _ Hloop)
      as (nodes & Hnodes & (_ & Hmem & _) & (_ & _ & _ & _ & Hkeys & Hconn)).
    rewrite (parsed_names py_float _ _ Hnodes) in Hmem.
    apply build_matrices_Raise in Hms as (key & c & t & Hc & Ht & Hraise);
      [|done].
    rewrite Hconn in Hc.
    destruct (proj1 (aggregated_edges_elem (map node_connections nodes) key t))
      as (i & d & es & Hi & Hes & Ht'); [by exists c|].
    rewrite lookup_map in Hi.
    destruct (nodes !! i) as [nd|] eqn:Hnd; [|discriminate].
    injection Hi as <-.
    destruct (Forall2_lookup_r _ _ _ _ _ Hnodes Hnd) as (st & Hst & Hparse).
    apply parse_station_Ok in Hparse as (r & Hr & _ & _ & _ & Hnc).
    rewrite Hnc in Hes.
    destruct (parse_customers_edges_inv py_float _ _ _ _ _ Hr Hes)
      as (cu & Hlast & _ & -> & _ & _).
    apply list_elem_of_fmap in Ht' as (conn & -> & Hconn_in).
    assert (st ∈ stations) as Hin by (by eapply list_elem_of_lookup_2).
    apply number_edge_Raise in Hraise as [[Hnone _]|[Hnone ->]];
      simpl in Hnone.
    + exfalso. assert (dict_mem (st_name st) (bs_names_to_nodes s) = true)
        as Hknown.
      { apply Hmem. apply list_elem_of_fmap. by exists st. }
      unfold dict_mem in Hknown. by rewrite Hnone in Hknown.
    + do 4 right. exists st, cu, conn. split_and!; [done..| |done].
      rewrite <- Hmem. unfold dict_mem. by rewrite Hnone.
  - intros [= ->].
    apply foldM_result_Raise_inv in Hloop
      as (pre & st & post & s & -> & Hpre & Hstep).
    assert (st ∈ pre ++ st :: post) as Hin.
    { apply elem_of_app. right. by left. }
    apply build_step_Raise in Hstep as [Hparse|[Hdup ->]].
    + apply parse_station_Raise in Hparse as (c & Hc & [Hserv|[Hsum ->]]).
      * unfold parse_service in Hserv.
        destruct (cust_service c) as [spec|] eqn:Hspec.
        -- left. by exists st, c, spec.
        -- right. left. exists st, c. injection Hserv as <-. done.
      * do 2 right. left. by exists st, c.
    + do 3 right. left.
      apply (build_loop_names py_float _ _ _ Hpre) in Hdup.
      apply list_elem_of_fmap in Hdup as (st0 & Hname & Hst0).
      apply list_elem_of_lookup_1 in Hst0 as [i Hi].
      exists i, (length pre), st0, st. split_and!; [| | |done..].
      * by apply lookup_lt_Some in Hi.
      * by apply lookup_app_l_Some.
      * by rewrite list_lookup_middle.
Qed.

End error_causes.

Lemma build_params_error_cause_witness :
  error_cause decimal_float [station_A; station_C] (KeyError "B").
Proof.
  apply (build_params_error_cause decimal_float [station_A; station_C]).
  reflexivity.
Defined.

(** ** Class keys *)

(** X6: Different class identifiers have different keys, so that the entries
    of two classes are never merged. *)
Theorem class_key_distinct (n m : Z) : n ≠ m → class_key n ≠ class_key m.
Proof. intros Hne Heq. by apply Hne, class_key_inj. Qed.

Lemma class_key_distinct_witness : class_key 1 ≠ class_key 11.
Proof. apply (class_key_distinct 1 11). lia. Defined.

(** ** Arrival specifications in the returned model *)

Section arrival_recovery.
Variable py_float : string → option float.

Lemma arrival_fails_NoArrivals (c : customer) :
  arrival_fails py_float c → parse_arrival py_float c = NoArrivals.
Proof.
  unfold parse_arrival. intros [->|(s & e & -> & ->)]; reflexivity.
Qed.

(** Stations that satisfy the three conditions of a build give a model. *)
Lemma build_params_returns (stations : list station) :
  entries_ok py_float stations → NoDup (map st_name stations) →
  targets_defined stations →
  ∃ p, build_params py_float stations = Ok p.
Proof.
  intros Hentries Hnd Htargets. apply is_ok_true. unfold build_params.
  assert (is_ok (foldM_result (build_step py_float) initial_state stations)
          = true) as Hloop by (by apply build_loop_is_ok).
  apply is_ok_true in Hloop as [s Hs]. rewrite Hs. simpl.
  destruct (build_loop_end py_float _ _ Hs)
    as (nodes & _ & _ & (_ & _ & _ & _ & Hkeys & _)).
  assert (is_ok (build_matrices (bs_names_to_nodes s) (length stations)
                   (bs_connections s)) = true) as Hms.
  { rewrite build_matrices_is_ok. apply (forallb_edges_get _ _ Hkeys).
    by apply (merged_edges_known py_float stations s Hs). }
  apply is_ok_true in Hms as [ms ->]. done.
Qed.

(** The arrival sequence of a class holds, at the place of a station, the
    arrival descriptor of the station's last entry of the class. *)
Lemma arrival_at_position (stations : list station) (p : params) (i : nat)
  (station : station) (c : customer) :
  build_params py_float stations = Ok p →
  stations !! i = Some station →
  last_of_class (st_customers station) c →
  ∃ arrivals,
    dict_get (Arrival_distributions p) (class_key (cust_class c))
    = Some arrivals
    ∧ arrivals !! i = Some (parse_arrival py_float c).
Proof.
  intros (s & nodes & _ & Hnodes & (_ & _ & Harr & _) & _ & _ & -> & _)
    %build_params_end Hi Hlast.
  destruct (Forall2_lookup_l _ _ _ _ _ Hnodes Hi) as (nd & Hnd & Hparse).
  destruct (parse_station_last py_float _ _ _ Hparse Hlast) as (Ha & _).
  exists (column (map node_arrivals nodes) (class_key (cust_class c))).
  rewrite Harr. unfold aggregated.
  rewrite (seen_lookup (map node_arrivals nodes) _ i (node_arrivals nd));
    [|by rewrite lookup_map, Hnd | unfold dict_mem; by rewrite Ha].
  split; [done|].
  apply (column_lookup_present _ _ _ (node_arrivals nd));
    [by rewrite lookup_map, Hnd | done].
Qed.

(** C5: an arrival specification that is absent or fails to parse never
    stops anything.  The body of the loop appends [NoArrivals] for the
    entry; [parse_customers] returns, as soon as the service specifications
    and routing lists of the entries parse, an arrival mapping that holds
    [NoArrivals] for the class of which the entry is the last; and
    [build_params] returns, as soon as the stations satisfy the conditions
    that do not involve arrival specifications, a model whose arrival
    sequence of the class holds [NoArrivals] at the place of the station.
    An error of the service specification is re-raised by the loop body,
    stops [parse_customers] (with that very error when no earlier entry
    failed) and makes [build_params] fail. *)
Theorem arrival_recovered_service_fatal (c : customer) :
  (arrival_fails py_float c →
   (∀ current_name acc sd conns,
      parse_service py_float c = Ok sd →
      parse_routing current_name c = Ok conns →
      parse_customer py_float current_name acc c
      = Ok (acc.1.1.1 ++ [class_key (cust_class c)],
            acc.1.1.2 ++ [NoArrivals], acc.1.2 ++ [sd], acc.2 ++ [conns]))
   ∧ (∀ customers current_name,
        last_of_class customers c →
        forallb (entry_ok py_float current_name) customers = true →
        ∃ r, parse_customers py_float customers current_name = Ok r
             ∧ dict_get (cd_arrival r) (class_key (cust_class c))
               = Some NoArrivals)
   ∧ (∀ stations i station,
        stations !! i = Some station →
        last_of_class (st_customers station) c →
        entries_ok py_float stations → NoDup (map st_name stations) →
        targets_defined stations →
        ∃ p arrivals,
          build_params py_float stations = Ok p
          ∧ dict_get (Arrival_distributions p) (class_key (cust_class c))
            = Some arrivals
          ∧ arrivals !! i = Some NoArrivals))
  ∧ (∀ customers current_name,
       is_ok (parse_customers py_float customers current_name)
       = forallb (entry_ok py_float current_name) customers)
  ∧ (∀ e, parse_service py_float c = Raise e →
       (∀ current_name acc,
          parse_customer py_float current_name acc c = Raise e)
       ∧ (∀ pre post current_name,
            forallb (entry_ok py_float current_name) pre = true →
            parse_customers py_float (pre ++ c :: post) current_name
            = Raise e)
       ∧ (∀ stations station,
            station ∈ stations → c ∈ st_customers station →
            is_ok (build_params py_float stations) = false)).
Proof.
  split_and!.
  - intros Hfails. pose proof (arrival_fails_NoArrivals c Hfails) as Harr.
    split_and!.
    + intros current_name [[[ks ds] ss] es] sd conns Hsd Hconns.
      unfold parse_customer. rewrite Hsd, Hconns, Harr. reflexivity.
    + intros customers current_name (pre & post & -> & Hlast) Hok.
      rewrite <- parse_customers_is_ok in Hok.
      apply is_ok_true in Hok as [r Hr]. exists r. split; [done|].
      apply parse_customers_last in Hr as (Ha & _); [|done].
      by rewrite Ha, Harr.
    + intros stations i station Hi Hlast Hentries Hnd Htargets.
      destruct (build_params_returns stations Hentries Hnd Htargets)
        as [p Hp].
      destruct (arrival_at_position _ _ _ _ _ Hp Hi Hlast)
        as (arrivals & Hget & Hpos).
      exists p, arrivals. by rewrite <- Harr.
  - intros customers current_name. apply parse_customers_is_ok.
  - intros e He. split_and!.
    + intros current_name acc. by apply parse_customer_service_raises.
    + intros pre post current_name Hpre.
      apply parse_customers_first_failure; [done|].
      intros acc. by apply parse_customer_service_raises.
    + intros stations station Hst Hc.
      apply (build_params_entry_raises py_float stations station c);
        [done..|].
      unfold entry_ok. by rewrite He.
Qed.

End arrival_recovery.

(** Conditions of a build that can be computed. *)
Lemma entries_ok_check (py_float : string → option float)
  (stations : list station) :
  forallb
    (λ st, forallb (entry_ok py_float (st_name st)) (st_customers st))
    stations = true →
  entries_ok py_float stations.
Proof.
  intros Hall st c Hst Hc. rewrite forallb_forall in Hall.
  apply list_elem_of_In in Hst, Hc. specialize (Hall st Hst).
  rewrite forallb_forall in Hall. by apply Hall.
Qed.

Lemma targets_defined_check (stations : list station) :
  forallb
    (λ st,
       forallb
         (λ c,
            forallb
              (λ conn, bool_decide (conn_target conn ∈ map st_name stations))
              (routes_of c))
         (st_customers st))
    stations = true →
  targets_defined stations.
Proof.
  intros Hall st c conn Hst Hlast Hconn. rewrite forallb_forall in Hall.
  apply last_of_class_elem in Hlast.
  apply list_elem_of_In in Hst, Hlast, Hconn. specialize (Hall st Hst).
  rewrite forallb_forall in Hall. specialize (Hall c Hlast).
  rewrite forallb_forall in Hall. specialize (Hall conn Hconn).
  by apply bool_decide_eq_true_1 in Hall.
Qed.

Lemma arrival_recovered_service_fatal_witness :
  (∃ p arrivals,
     build_params decimal_float [station_A_bad_arrival; station_B] = Ok p
     ∧ dict_get (Arrival_distributions p) "Class 1" = Some arrivals
     ∧ arrivals !! 0%nat = Some NoArrivals)
  ∧ is_ok
      (build_params decimal_float
         [station_A;
          station_of "B" 5 2 [customer_of 1 None "Poisson 3" None]])
    = false.
Proof.
  split.
  - destruct (arrival_recovered_service_fatal decimal_float
                (customer_of 1 (Some "Poisson 3") "Exponential 5.0"
                   (Some [route "B" 0.8]))) as ((_ & _ & Hbuild) & _).
    + right. exists "Poisson 3", (UnsupportedDistribution "Poisson").
      split; reflexivity.
    + apply (Hbuild [station_A_bad_arrival; station_B] 0%nat
               station_A_bad_arrival).
      * reflexivity.
      * exists [], []. split; [reflexivity | apply not_elem_of_nil].
      * apply entries_ok_check. reflexivity.
      * apply NoDup_cons. split; [|apply NoDup_singleton].
        intros Hin. apply list_elem_of_singleton in Hin. discriminate.
      * apply targets_defined_check. reflexivity.
  - destruct (arrival_recovered_service_fatal decimal_float
                (customer_of 1 None "Poisson 3" None))
      as (_ & _ & Hfatal).
    destruct (Hfatal (UnsupportedDistribution "Poisson") eq_refl)
      as (_ & _ & Hbuild).
    apply (Hbuild _ (station_of "B" 5 2 [customer_of 1 None "Poisson 3" None])).
    + apply elem_of_cons. right. apply list_elem_of_singleton. reflexivity.
    + apply list_elem_of_singleton. reflexivity.
Defined.

(** ** Probabilities in the returned matrices *)

Lemma number_edge_full (names_to_nodes : dict string Z) (source target : string)
  (w w' : float) (u v : Z) :
  number_edge names_to_nodes (source, target, w) = Ok (u, v, w') →
  dict_get names_to_nodes source = Some u
  ∧ dict_get names_to_nodes target = Some v ∧ w' = w.
Proof.
  unfold number_edge, node_of.
  destruct (dict_get names_to_nodes source); simpl; [|discriminate].
  destruct (dict_get names_to_nodes target); simpl; [|discriminate].
  by intros [= -> -> ->].
Qed.

(** Where different names have different numbers, the entry of the matrix
    at the places of the two stations of an edge is the weight of that
    edge, when no later edge of the list joins the same two stations. *)
Lemma transition_matrix_entry_of_edge (names_to_nodes : dict string Z)
  (num_nodes : nat) (c1 c2 : list edge) (source target : string) (w : float)
  (m : matrix) :
  (∀ a b idx, dict_get names_to_nodes a = Some idx →
              dict_get names_to_nodes b = Some idx → a = b) →
  transition_matrix names_to_nodes num_nodes (c1 ++ (source, target, w) :: c2)
  = Ok m →
  (∀ w', (source, target, w') ∉ c2) →
  ∃ es u v row col,
    dict_get names_to_nodes source = Some u
    ∧ dict_get names_to_nodes target = Some v
    ∧ m = to_numpy_matrix (add_edges_from empty_DiGraph es)
    ∧ dg_nodes (add_edges_from empty_DiGraph es) !! row = Some u
    ∧ dg_nodes (add_edges_from empty_DiGraph es) !! col = Some v
    ∧ matrix_entry m row col
      = Some (if PrimFloat.is_nan w then 0%float else w).
Proof.
  intros Hinj Hm Hlast. unfold transition_matrix in Hm.
  rewrite bool_decide_eq_true_2 in Hm
    by (rewrite length_app; simpl; lia).
  apply bind_Ok in Hm as (es & Hes & [= <-]).
  apply mapM_result_Ok in Hes.
  apply Forall2_app_inv_l in Hes as (es1 & es' & Hes1 & Hes' & ->).
  apply Forall2_cons_inv_l in Hes' as ([[u v] w0] & es2 & He & Hes2 & ->).
  apply number_edge_full in He as (Hu & Hv & ->).
  set (g := add_edges_from empty_DiGraph (es1 ++ (u, v, w) :: es2)).
  assert (∀ w', (u, v, w') ∉ es2) as Hlast'.
  { intros w' Hin. apply list_elem_of_lookup_1 in Hin as [k Hk].
    destruct (Forall2_lookup_r _ _ _ _ _ Hes2 Hk) as ([[a b] w1] & Ht & Hnum).
    apply number_edge_full in Hnum as (Ha & Hb & ->).
    rewrite (Hinj _ _ _ Ha Hu), (Hinj _ _ _ Hb Hv) in Ht.
    apply (Hlast w1). by eapply list_elem_of_lookup_2. }
  assert ((u, v, w) ∈ es1 ++ (u, v, w) :: es2) as Hin.
  { apply elem_of_app. right. by left. }
  assert (u ∈ dg_nodes g) as Hgu.
  { apply add_edges_from_nodes. right. exists u, v, w. eauto. }
  assert (v ∈ dg_nodes g) as Hgv.
  { apply add_edges_from_nodes. right. exists u, v, w. eauto. }
  apply list_elem_of_lookup_1 in Hgu as [row Hrow].
  apply list_elem_of_lookup_1 in Hgv as [col Hcol].
  exists (es1 ++ (u, v, w) :: es2), u, v, row, col.
  split_and!; [done..|].
  rewrite (to_numpy_matrix_entry g row col u v) by done.
  unfold edge_weight, g. by rewrite add_edges_from_last.
Qed.

Section probabilities_in_matrices.
Variable py_float : string → option float.

Lemma names_injective (nodes : list node) (s : build_state) (a b : string)
  (idx : Z) :
  build_inv nodes s → build_inv_more nodes s →
  dict_get (bs_names_to_nodes s) a = Some idx →
  dict_get (bs_names_to_nodes s) b = Some idx → a = b.
Proof.
  intros (_ & Hmem & _) (_ & Hnames & _) Ha Hb.
  assert (∀ name, dict_get (bs_names_to_nodes s) name = Some idx →
            ∃ i nd, nodes !! i = Some nd ∧ node_name nd = name
                    ∧ idx = (Z.of_nat i + 1)%Z) as Hpos.
  { intros name Hget.
    assert (name ∈ map node_name nodes) as Hin.
    { apply Hmem. unfold dict_mem. by rewrite Hget. }
    apply list_elem_of_fmap in Hin as (nd & -> & Hnd).
    apply list_elem_of_lookup_1 in Hnd as [i Hi].
    exists i, nd. split_and!; [done..|].
    pose proof (Hnames _ _ Hi) as Hidx. congruence. }
  destruct (Hpos a Ha) as (i & nda & Hi & <- & ->).
  destruct (Hpos b Hb) as (j & ndb & Hj & <- & Hij).
  assert (i = j) as -> by lia. congruence.
Qed.

(** The edges that a parsed station keeps leave that station. *)
Lemma node_connections_sources (station : station) (nd : node) (key : string)
  (es : list edge) (e : edge) :
  parse_station py_float station = Ok nd →
  dict_get (node_connections nd) key = Some es → e ∈ es →
  e.1.1 = node_name nd.
Proof.
  intros (r & Hr & -> & _ & _ & ->)%parse_station_Ok Hes He.
  destruct (parse_customers_edges_inv py_float _ _ _ _ _ Hr Hes)
    as (_ & _ & _ & _ & _ & Hsrc).
  rewrite Forall_forall in Hsrc. by apply Hsrc.
Qed.

(** In a returned model, a routing target that is kept and that no later
    target of its entry repeats gives the entry of the matrix of its class
    at the places of the station and of the target. *)
Lemma kept_probability_in_matrix (stations : list station) (p : params)
  (i : nat) (station : station) (c : customer)
  (before after : list connection) (conn : connection) :
  build_params py_float stations = Ok p →
  stations !! i = Some station →
  last_of_class (st_customers station) c →
  routes_of c = before ++ conn :: after →
  (∀ conn', conn' ∈ after → conn_target conn' ≠ conn_target conn) →
  ∃ m es row col j target,
    dict_get (Transition_matrices p) (class_key (cust_class c)) = Some m
    ∧ m = to_numpy_matrix (add_edges_from empty_DiGraph es)
    ∧ dg_nodes (add_edges_from empty_DiGraph es) !! row
      = Some (Z.of_nat i + 1)%Z
    ∧ stations !! j = Some target
    ∧ st_name target = conn_target conn
    ∧ dg_nodes (add_edges_from empty_DiGraph es) !! col
      = Some (Z.of_nat j + 1)%Z
    ∧ matrix_entry m row col
      = Some (if PrimFloat.is_nan (conn_prob conn) then 0%float
              else conn_prob conn).
Proof.
  intros (s & nodes & _ & Hnodes & Hinv & Hmore & Hms & _)%build_params_end
    Hi Hlast Hroutes Hafter.
  pose proof Hinv as (_ & Hmem & _).
  pose proof Hmore as (Hnd & Hnames & _ & _ & Hkeys & Hconn).
  destruct (Forall2_lookup_l _ _ _ _ _ Hnodes Hi) as (nd & Hndi & Hparse).
  destruct (parse_station_last py_float _ _ _ Hparse Hlast) as (_ & _ & Hkept).
  pose proof Hparse as (_ & _ & Hname & _)%parse_station_Ok.
  set (key := class_key (cust_class c)) in *.
  set (col_edges := edge_column (map node_connections nodes) key).
  assert (col_edges !! i
          = Some (map (edge_of (st_name station)) (routes_of c))) as Hcol.
  { unfold col_edges, edge_column. rewrite !lookup_map, Hndi. simpl.
    by rewrite Hkept. }
  assert (dict_get (bs_connections s) key = Some (concat col_edges)) as Hall.
  { rewrite Hconn. unfold aggregated_edges.
    assert (seen_edges (map node_connections nodes) key = true) as ->; [|done].
    apply existsb_mem_lookup. exists i, (node_connections nd).
    rewrite lookup_map, Hndi. split; [done|]. unfold dict_mem.
    by rewrite Hkept. }
  pose proof (build_matrices_get _ _ _ _ key Hkeys Hms) as Hget.
  rewrite Hall in Hget. destruct Hget as (m & Hm & Hget).
  rewrite <- (take_drop_middle col_edges i _ Hcol) in Hm.
  rewrite concat_app in Hm. simpl in Hm.
  rewrite Hroutes, map_app in Hm. simpl in Hm.
  rewrite <- !app_assoc in Hm. simpl in Hm. rewrite app_assoc in Hm.
  apply transition_matrix_entry_of_edge in Hm
    as (es & u & v & row & col & Hu & Hv & -> & Hrow & Hcolumn & Hentry).
  - assert (u = (Z.of_nat i + 1)%Z) as ->.
    { pose proof (Hnames _ _ Hndi) as Hidx. rewrite Hname in Hidx.
      congruence. }
    assert (conn_target conn ∈ map node_name nodes) as Hin.
    { apply Hmem. unfold dict_mem. by rewrite Hv. }
    apply list_elem_of_fmap in Hin as (ndt & Htarget & Hndt).
    apply list_elem_of_lookup_1 in Hndt as [j Hj].
    destruct (Forall2_lookup_r _ _ _ _ _ Hnodes Hj) as (target & Hst & Hpt).
    apply parse_station_Ok in Hpt as (_ & _ & Hnt & _).
    assert (v = (Z.of_nat j + 1)%Z) as ->.
    { pose proof (Hnames _ _ Hj) as Hidx. rewrite <- Htarget in Hidx.
      congruence. }
    exists (to_numpy_matrix (add_edges_from empty_DiGraph es)), es, row, col,
      j, target.
    split_and!; try done. congruence.
  - intros a b idx. by apply (names_injective nodes s).
  - intros w' Hin. apply elem_of_app in Hin as [Hin|Hin].
    + apply list_elem_of_fmap in Hin as (conn' & [= Htgt _] & Hconn').
      by apply (Hafter conn').
    + apply elem_of_concat in Hin as (l & He & Hl).
      apply list_elem_of_lookup_1 in Hl as [k Hk].
      rewrite lookup_drop in Hk. unfold col_edges, edge_column in Hk.
      rewrite !lookup_map in Hk.
      destruct (nodes !! (S i + k)) as [nd'|] eqn:Hnd'; [|discriminate].
      simpl in Hk. injection Hk as <-.
      destruct (dict_get (node_connections nd') key) as [es'|] eqn:Hes';
        [|by apply elem_of_nil in He].
      destruct (Forall2_lookup_r _ _ _ _ _ Hnodes Hnd') as (st' & _ & Hp').
      pose proof (node_connections_sources _ _ _ _ _ Hp' Hes' He) as Hsrc.
      simpl in Hsrc.
      assert (i = S i + k) as Habs; [|lia].
      apply (NoDup_lookup _ _ _ (node_name nd) Hnd).
      * by rewrite lookup_map, Hndi.
      * rewrite lookup_map, Hnd'. simpl. congruence.
Qed.

(** C10 (amended): a list of routing targets whose sum is at most 1.0 is
    accepted whatever each probability is, and each probability is copied
    into its edge record as it stands.  In a returned model the
    probability of a kept routing target, whatever its sign or size, is
    the entry of the matrix of its class at the places of the station and
    of the target, when no later target of the same entry names the same
    station and the probability is not a NaN. *)
Theorem parse_connections_unchecked_range (connections : list connection)
  (current_name : string) (stations : list station) (p : params) (i : nat)
  (station : station) (c : customer) (before after : list connection)
  (conn : connection) :
  (PrimFloat.leb (total_prob connections) 1%float = true →
   parse_connections connections current_name
   = Ok (map (edge_of current_name) connections))
  ∧ (build_params py_float stations = Ok p →
     stations !! i = Some station →
     last_of_class (st_customers station) c →
     routes_of c = before ++ conn :: after →
     (∀ conn', conn' ∈ after → conn_target conn' ≠ conn_target conn) →
     PrimFloat.is_nan (conn_prob conn) = false →
     ∃ m es row col j target,
       dict_get (Transition_matrices p) (class_key (cust_class c)) = Some m
       ∧ m = to_numpy_matrix (add_edges_from empty_DiGraph es)
       ∧ dg_nodes (add_edges_from empty_DiGraph es) !! row
         = Some (Z.of_nat i + 1)%Z
       ∧ stations !! j = Some target
       ∧ st_name target = conn_target conn
       ∧ dg_nodes (add_edges_from empty_DiGraph es) !! col
         = Some (Z.of_nat j + 1)%Z
       ∧ matrix_entry m row col = Some (conn_prob conn)).
Proof.
  split.
  - intros Hle. rewrite parse_connections_eq.
    by rewrite (leb_not_ltb _ _ Hle).
  - intros Hp Hi Hlast Hroutes Hafter Hnan.
    destruct (kept_probability_in_matrix _ _ _ _ _ _ _ _ Hp Hi Hlast Hroutes
                Hafter)
      as (m & es & row & col & j & target & H1 & H2 & H3 & H4 & H5 & H6 & H7).
    rewrite Hnan in H7. exists m, es, row, col, j, target. done.
Qed.

End probabilities_in_matrices.

Lemma parse_connections_unchecked_range_witness :
  parse_connections [route "B" (-0.5); route "A" 1.25] "A"
  = Ok [("A", "B", (-0.5)%float); ("A", "A", 1.25%float)]
  ∧ ∃ p m row col,
      build_params decimal_float [station_A_signed; station_B] = Ok p
      ∧ dict_get (Transition_matrices p) "Class 1" = Some m
      ∧ matrix_entry m row col = Some (-0.5)%float.
Proof.
  destruct (build_params decimal_float [station_A_signed; station_B])
    as [p|e] eqn:Hp; [|vm_compute in Hp; discriminate].
  destruct (parse_connections_unchecked_range decimal_float
              [route "B" (-0.5); route "A" 1.25] "A"
              [station_A_signed; station_B] p 0 station_A_signed
              (customer_of 1 (Some "Exponential 2.0") "Exponential 5.0"
                 (Some [route "B" (-0.5); route "A" 1.25]))
              [] [route "A" 1.25] (route "B" (-0.5)))
    as [Haccept Hmatrix].
  split.
  - apply Haccept. reflexivity.
  - destruct Hmatrix
      as (m & es & row & col & j & target & Hm & _ & _ & _ & _ & _ & Hentry).
    + exact Hp.
    + reflexivity.
    + exists [], []. split; [reflexivity | apply not_elem_of_nil].
    + reflexivity.
    + intros conn' Hin. apply list_elem_of_singleton in Hin. rewrite Hin.
      discriminate.
    + reflexivity.
    + exists p, m, row, col. split_and!; [reflexivity | exact Hm | exact Hentry].
Defined.

(** C10 as stated fails: station A routes class 1 to B with [-0.5] and then
    with [0.25]; the list is accepted and [-0.5] stands in its edge record,
    but it is no entry of the transition matrix, where the later edge has
    replaced it. *)
Lemma parse_connections_unchecked_range_counterexample :
  ∃ p m,
    PrimFloat.leb (total_prob [route "B" (-0.5); route "B" 0.25]) 1%float
    = true
    ∧ parse_connections [route "B" (-0.5); route "B" 0.25] "A"
      = Ok [("A", "B", (-0.5)%float); ("A", "B", 0.25%float)]
    ∧ build_params decimal_float [station_A_replaced; station_B] = Ok p
    ∧ dict_get (Transition_matrices p) "Class 1" = Some m
    ∧ m = [[0; 0.25]; [0; 0]]%float
    ∧ ∀ row col, matrix_entry m row col ≠ Some (-0.5)%float.
Proof.
  eexists _, _. split_and!.
  - reflexivity.
  - reflexivity.
  - vm_compute. reflexivity.
  - reflexivity.
  - reflexivity.
  - intros row col.
    assert (∀ x, PrimFloat.ltb (-0.5) x = true → Some x ≠ Some (-0.5)%float)
      as Hneq.
    { intros x Hlt [= Heq]. by apply (float_lt_neq _ _ Hlt). }
    destruct row as [|[|row]], col as [|[|col]]; unfold matrix_entry; simpl;
      try discriminate; by apply Hneq.
Qed.
